(** * GridWorld1D: a shallow embedding of [week1/main.py]

    The environment ([GridWorld1D.reset], [GridWorld1D.step]), the three
    scripted policies and the episode runner are embedded as state-passing
    functions in a small state-and-exception monad.  Python integers are
    [Z], Python floats are IEEE binary64 ([float]), attributes that may
    hold [None] are [option Z], and module-level globals that may be
    unbound are [option Z] as well. *)

From Stdlib Require Import ZArith List String Bool Lia Floats.
Import ListNotations.

Local Open Scope Z_scope.

(* Decimal literals such as 0.1 denote the nearest binary64 value, as in
   Python. *)
Set Warnings "-inexact-float".

(** ** Python values, exceptions and results *)

(** The values a caller may pass as [action]. *)
Inductive pyval : Type :=
| PyNone
| PyBool (b : bool)
| PyInt (z : Z)
| PyFloat (f : float)
| PyStr (s : string).

Inductive exn : Type :=
| AssertionError (msg : string)
| TypeError
| ValueError
| NameError.

(** [OutOfFuel] stands for a loop that has not finished within the fuel
    given to the model; it is not a Python outcome. *)
Inductive result (A : Type) : Type :=
| Ok (a : A)
| Raise (e : exn)
| OutOfFuel.

Arguments Ok {A} a.
Arguments Raise {A} e.
Arguments OutOfFuel {A}.

(** Exact comparison of a float with an integer, as Python's [==] does. *)
Definition float_eq_Z (f : float) (k : Z) : bool :=
  match Prim2SF f with
  | S754_zero _ => k =? 0
  | S754_finite s m e =>
      let v := if s then Z.neg m else Z.pos m in
      if 0 <=? e then v * 2 ^ e =? k
      else (Z.pos m mod 2 ^ (- e) =? 0) && (v / 2 ^ (- e) =? k)
  | _ => false
  end.

(** Python's [v == k] for an integer constant [k]. *)
Definition py_eq_int (v : pyval) (k : Z) : bool :=
  match v with
  | PyInt z => z =? k
  | PyBool b => (if b then 1 else 0) =? k
  | PyFloat f => float_eq_Z f k
  | PyNone | PyStr _ => false
  end.

(** Python's [v in (0, 1)]. *)
Definition in_0_1 (v : pyval) : bool :=
  py_eq_int v 0 || py_eq_int v 1.

(** ** The state-and-exception monad *)

Definition M (S A : Type) : Type := S -> result A * S.

Definition ret {S A} (a : A) : M S A := fun s => (Ok a, s).

Definition bind {S A B} (m : M S A) (k : A -> M S B) : M S B :=
  fun s =>
    match m s with
    | (Ok a, s') => k a s'
    | (Raise e, s') => (Raise e, s')
    | (OutOfFuel, s') => (OutOfFuel, s')
    end.

Definition raise {S A} (e : exn) : M S A := fun s => (Raise e, s).

Definition gets {S A} (f : S -> A) : M S A := fun s => (Ok (f s), s).

Definition modify {S} (f : S -> S) : M S unit := fun s => (Ok tt, f s).

Notation "x <- m ;; k" := (bind m (fun x => k))
  (at level 61, m at next level, right associativity).
Notation "m ;; k" := (bind m (fun _ => k))
  (at level 61, right associativity).

(** [assert cond, msg] *)
Definition py_assert {S} (cond : bool) (msg : string) : M S unit :=
  if cond then ret tt else raise (AssertionError msg).

(** An operand of integer arithmetic: [None] raises [TypeError]. *)
Definition as_int {S} (v : option Z) : M S Z :=
  match v with
  | Some z => ret z
  | None => raise TypeError
  end.

(** Reading a module-level global: unbound raises [NameError]. *)
Definition global {S} (v : option Z) : M S Z :=
  match v with
  | Some z => ret z
  | None => raise NameError
  end.

(** ** The random source

    [random.Random] belongs to Python's library, not to the repository; it
    is taken as a parameter.  [randbelow r n] is the draw behind
    [randrange(n)] for [n > 0], together with the generator's next state. *)
Class RandomSource : Type := {
  Random : Type;
  Random_seed : Z -> Random;
  randbelow : Random -> Z -> Z * Random;
  randbelow_range : forall r n, 0 < n -> 0 <= fst (randbelow r n) < n
}.

(** [r.randrange(n)]: [ValueError] on an empty range. *)
Definition randrange `{RandomSource} (r : Random) (n : Z) : result Z * Random :=
  if 0 <? n then let (v, r') := randbelow r n in (Ok v, r')
  else (Raise ValueError, r).

Section Environment.

Context `{RS : RandomSource}.

(** ** The environment *)

Record GridWorld1D : Type := mkGridWorld1D {
  N : Z;
  step_limit : Z;
  rng : Random;
  state : option Z;
  goal_state : option Z;
  steps_taken : Z
}.

Definition set_rng (r : Random) (e : GridWorld1D) : GridWorld1D :=
  mkGridWorld1D (N e) (step_limit e) r (state e) (goal_state e) (steps_taken e).
Definition set_state (s : option Z) (e : GridWorld1D) : GridWorld1D :=
  mkGridWorld1D (N e) (step_limit e) (rng e) s (goal_state e) (steps_taken e).
Definition set_goal_state (g : option Z) (e : GridWorld1D) : GridWorld1D :=
  mkGridWorld1D (N e) (step_limit e) (rng e) (state e) g (steps_taken e).
Definition set_steps_taken (n : Z) (e : GridWorld1D) : GridWorld1D :=
  mkGridWorld1D (N e) (step_limit e) (rng e) (state e) (goal_state e) n.

(** [GridWorld1D.__init__(N, step_limit, seed)].  An unseeded construction
    ([seed=None]) seeds from the operating system; the model represents it
    by an arbitrary [seed]. *)
Definition init (n limit seed : Z) : result GridWorld1D :=
  Ok (mkGridWorld1D n limit (Random_seed seed) None None 0).

(** [self.rng.randrange(n)] *)
Definition env_randrange (n : Z) : M GridWorld1D Z :=
  fun e => let (v, r') := randrange (rng e) n in (v, set_rng r' e).

(** The [while start_state == self.goal_state] loop of [reset]. *)
Fixpoint reset_loop (fuel : nat) (start_state : Z) : M GridWorld1D Z :=
  g <- gets goal_state ;;
  if match g with Some g => start_state =? g | None => false end then
    match fuel with
    | O => fun e => (OutOfFuel, e)
    | S fuel' =>
        n <- gets N ;;
        start_state' <- env_randrange n ;;
        reset_loop fuel' start_state'
    end
  else ret start_state.

(** [GridWorld1D.reset] *)
Definition reset (fuel : nat) : M GridWorld1D Z :=
  n <- gets N ;;
  g <- env_randrange n ;;
  modify (set_goal_state (Some g)) ;;
  n <- gets N ;;
  start_state <- env_randrange n ;;
  start_state <- reset_loop fuel start_state ;;
  modify (set_state (Some start_state)) ;;
  modify (set_steps_taken 0) ;;
  ret start_state.

Definition invalid_action_msg : string :=
  "Invalid action, must be 0 (left) or 1 (right).".

(** The shaped step penalty of [step]. *)
Definition shaped_reward (old_dist new_dist : Z) : float :=
  if new_dist <? old_dist then (-0.1)%float else (-0.2)%float.

(** [GridWorld1D.step] *)
Definition step (action : pyval) : M GridWorld1D (Z * float * bool) :=
  py_assert (in_0_1 action) invalid_action_msg ;;
  old_state <- gets state ;;
  (if py_eq_int action 0 then
     s <- (cur <- gets state ;; as_int cur) ;;
     modify (set_state (Some (Z.max (s - 1) 0)))
   else
     s <- (cur <- gets state ;; as_int cur) ;;
     n <- gets N ;;
     modify (set_state (Some (Z.min (s + 1) (n - 1))))) ;;
  taken <- gets steps_taken ;;
  modify (set_steps_taken (taken + 1)) ;;
  cur <- gets state ;;
  goal <- gets goal_state ;;
  new_state <- as_int cur ;;
  if match goal with Some g => new_state =? g | None => false end then
    ret (new_state, 10%float, true)
  else
    o <- as_int old_state ;;
    g <- as_int goal ;;
    let old_dist := Z.abs (o - g) in
    let new_dist := Z.abs (new_state - g) in
    let reward := shaped_reward old_dist new_dist in
    taken <- gets steps_taken ;;
    limit <- gets step_limit ;;
    if taken >=? limit then
      ret (new_state, (reward + -100)%float, true)
    else
      ret (new_state, reward, false).

(** ** Process-wide state

    The policies keep their memory in module-level globals, and
    [run_episode] draws from the [random] module's own generator; the
    environment object is shared by the runner and the policies. *)

Record World : Type := mkWorld {
  env : GridWorld1D;
  global_random : Random;
  monotonous_direction : option Z;
  wildcard_origin : option Z;
  wildcard_extent : option Z;
  wildcard_direction : option Z
}.

Definition set_env (e : GridWorld1D) (w : World) : World :=
  mkWorld e (global_random w) (monotonous_direction w)
          (wildcard_origin w) (wildcard_extent w) (wildcard_direction w).
Definition set_global_random (r : Random) (w : World) : World :=
  mkWorld (env w) r (monotonous_direction w)
          (wildcard_origin w) (wildcard_extent w) (wildcard_direction w).
Definition set_monotonous_direction (d : option Z) (w : World) : World :=
  mkWorld (env w) (global_random w) d
          (wildcard_origin w) (wildcard_extent w) (wildcard_direction w).
Definition set_wildcard_origin (o : option Z) (w : World) : World :=
  mkWorld (env w) (global_random w) (monotonous_direction w)
          o (wildcard_extent w) (wildcard_direction w).
Definition set_wildcard_extent (x : option Z) (w : World) : World :=
  mkWorld (env w) (global_random w) (monotonous_direction w)
          (wildcard_origin w) x (wildcard_direction w).
Definition set_wildcard_direction (d : option Z) (w : World) : World :=
  mkWorld (env w) (global_random w) (monotonous_direction w)
          (wildcard_origin w) (wildcard_extent w) d.

(** A method call on the shared environment object. *)
Definition on_env {A} (m : M GridWorld1D A) : M World A :=
  fun w => let (r, e') := m (env w) in (r, set_env e' w).

(** [random.randrange(n)] on the module's own generator. *)
Definition global_randrange (n : Z) : M World Z :=
  fun w => let (v, r') := randrange (global_random w) n in
           (v, set_global_random r' w).

(** ** Policies: [policy_fn(state, env)] *)

Definition policy : Type := Z -> M World pyval.

Definition random_policy : policy := fun _ =>
  a <- on_env (env_randrange 2) ;;
  ret (PyInt a).

Definition monotonous_policy : policy := fun st =>
  dir <- (d <- gets monotonous_direction ;; global d) ;;
  if dir =? 0 then
    if st =? 0 then
      modify (set_monotonous_direction (Some 1)) ;;
      ret (PyInt 1)
    else ret (PyInt 0)
  else if dir =? 1 then
    n <- gets (fun w => N (env w)) ;;
    if st =? n - 1 then
      modify (set_monotonous_direction (Some 0)) ;;
      ret (PyInt 0)
    else ret (PyInt 1)
  else ret PyNone.

Definition wildcard_policy : policy := fun st =>
  taken <- gets (fun w => steps_taken (env w)) ;;
  if taken =? 0 then
    modify (set_wildcard_origin (Some st)) ;;
    modify (set_wildcard_extent (Some 1)) ;;
    modify (set_wildcard_direction (Some 1)) ;;
    ret (PyInt 1)
  else
    origin <- (v <- gets wildcard_origin ;; global v) ;;
    direction <- (v <- gets wildcard_direction ;; global v) ;;
    extent <- (v <- gets wildcard_extent ;; global v) ;;
    let target := origin + direction * extent in
    n <- gets (fun w => N (env w)) ;;
    let target := Z.max 0 (Z.min (n - 1) target) in
    (if st =? target then
       direction <- (v <- gets wildcard_direction ;; global v) ;;
       if direction =? 1 then
         modify (set_wildcard_direction (Some (-1)))
       else
         modify (set_wildcard_direction (Some 1)) ;;
         extent <- (v <- gets wildcard_extent ;; global v) ;;
         modify (set_wildcard_extent (Some (extent + 1)))
     else ret tt) ;;
    if st <? target then ret (PyInt 1)
    else if st >? target then ret (PyInt 0)
    else
      direction <- (v <- gets wildcard_direction ;; global v) ;;
      ret (PyInt (if direction =? 1 then 1 else 0)).

(** ** The episode runner *)

(** The [for t in range(max_steps)] loop of [run_episode]; [todo] is the
    number of iterations left and [t] the loop index. *)
Fixpoint episode_loop (policy_fn : policy) (max_steps : Z) (todo : nat)
    (t : Z) (st : Z) (total_return : float) : M World (float * Z) :=
  match todo with
  | O => ret (total_return, max_steps)
  | S todo' =>
      action <- policy_fn st ;;
      r <- on_env (step action) ;;
      let '(next_state, reward, done) := r in
      let total_return := (total_return + reward)%float in
      if done then ret (total_return, t + 1)
      else episode_loop policy_fn max_steps todo' (t + 1) next_state total_return
  end.

(** [run_episode(env, policy_fn, max_steps)]; [fuel] bounds the resampling
    loop of [reset]. *)
Definition run_episode (fuel : nat) (policy_fn : policy) (max_steps : Z)
  : M World (float * Z) :=
  st <- on_env (reset fuel) ;;
  d <- global_randrange 2 ;;
  modify (set_monotonous_direction (Some d)) ;;
  episode_loop policy_fn max_steps (Z.to_nat max_steps) 0 st 0%float.

(** The inner loop of [run_experiments]: the outcomes of [count] episodes
    of one policy, in order. *)
Fixpoint run_episodes (fuel : nat) (policy_fn : policy) (max_steps : Z)
    (count : nat) : M World (list (float * Z)) :=
  match count with
  | O => ret []
  | S count' =>
      o <- run_episode fuel policy_fn max_steps ;;
      os <- run_episodes fuel policy_fn max_steps count' ;;
      ret (o :: os)
  end.

End Environment.

(** ** Sequences of [step] calls *)

Section Runs.

Context `{RS : RandomSource}.

(** Calling [step] once per action, in order, collecting what it returns;
    an exception ends the sequence. *)
Fixpoint step_seq (actions : list pyval)
  : M GridWorld1D (list (Z * float * bool)) :=
  match actions with
  | [] => ret []
  | a :: rest =>
      o <- step a ;;
      os <- step_seq rest ;;
      ret (o :: os)
  end.

(** The position [step] moves to from [s] on a grid of [n] cells. *)
Definition move (action : pyval) (s n : Z) : Z :=
  if py_eq_int action 0 then Z.max (s - 1) 0 else Z.min (s + 1) (n - 1).

(** The environment after a completed [step] that moved to [s']. *)
Definition moved (e : GridWorld1D) (s' : Z) : GridWorld1D :=
  set_steps_taken (steps_taken e + 1) (set_state (Some s') e).

(** The action is left ([== 0]) or right ([== 1]). *)
Definition left_or_right (action : pyval) : Prop :=
  py_eq_int action 0 = true \/ py_eq_int action 1 = true.

(** Both positions of an episode are cells of the grid. *)
Definition in_bounds (e : GridWorld1D) : Prop :=
  exists s g, state e = Some s /\ goal_state e = Some g /\
              0 <= s < N e /\ 0 <= g < N e.

(** The candidate start positions of [reset]: [start_draws k r n] is the
    [k]-th redraw from generator state [r], with the state after it. *)
Fixpoint start_draws (k : nat) (r : Random) (n : Z) : Z * Random :=
  match k with
  | O => randbelow r n
  | S k' => let (_, r') := randbelow r n in start_draws k' r' n
  end.

End Runs.

(** ** The expanding sweep, as the specification words it *)

Module SweepSpec.

Inductive action : Type := Left | Right.

Inductive direction : Type := Plus | Minus.

Record sweep : Type := mkSweep {
  origin : Z;
  extent : Z;
  heading : direction
}.

Definition sign (d : direction) : Z :=
  match d with Plus => 1 | Minus => -1 end.

Definition clamp (x lo hi : Z) : Z :=
  if x <? lo then lo else if hi <? x then hi else x.

Definition target (size : Z) (m : sweep) : Z :=
  clamp (origin m + sign (heading m) * extent m) 0 (size - 1).

(** Arriving at the target: [+1] turns into [-1] with the extent kept;
    [-1] turns into [+1] with the extent widened by one. *)
Definition arrive (m : sweep) : sweep :=
  match heading m with
  | Plus => mkSweep (origin m) (extent m) Minus
  | Minus => mkSweep (origin m) (extent m + 1) Plus
  end.

Definition toward (d : direction) : action :=
  match d with Plus => Right | Minus => Left end.

(** One decision.  At the first step the memory is overwritten, so none
    is needed; later steps need the memory of the episode. *)
Definition decide (size taken st : Z) (mem : option sweep)
  : option (action * sweep) :=
  if taken =? 0 then Some (Right, mkSweep st 1 Plus)
  else
    match mem with
    | None => None
    | Some m =>
        let t := target size m in
        let m' := if st =? t then arrive m else m in
        let a := if st <? t then Right
                 else if t <? st then Left
                 else toward (heading m') in
        Some (a, m')
    end.

(** Actions are the integers [0] and [1] in the program. *)
Definition code (a : action) : pyval :=
  match a with Left => PyInt 0 | Right => PyInt 1 end.

End SweepSpec.

Section SweepMemory.

Context `{RS : RandomSource}.

(** The sweep memory held by the three [wildcard_*] globals, when they are
    all bound and the direction is [1] or [-1]. *)
Definition sweep_of (w : World) : option SweepSpec.sweep :=
  match wildcard_origin w, wildcard_extent w, wildcard_direction w with
  | Some o, Some x, Some d =>
      if d =? 1 then Some (SweepSpec.mkSweep o x SweepSpec.Plus)
      else if d =? -1 then Some (SweepSpec.mkSweep o x SweepSpec.Minus)
      else None
  | _, _, _ => None
  end.

(** Storing a sweep memory into the globals. *)
Definition with_sweep (m : SweepSpec.sweep) (w : World) : World :=
  set_wildcard_direction (Some (SweepSpec.sign (SweepSpec.heading m)))
    (set_wildcard_extent (Some (SweepSpec.extent m))
       (set_wildcard_origin (Some (SweepSpec.origin m)) w)).

(** Two processes that agree on everything except the state of the
    [random] module's own generator and [monotonous_direction], the global
    that [run_episode] fills from it. *)
Definition same_seeded_state (w1 w2 : World) : Prop :=
  env w1 = env w2 /\
  wildcard_origin w1 = wildcard_origin w2 /\
  wildcard_extent w1 = wildcard_extent w2 /\
  wildcard_direction w1 = wildcard_direction w2.

(** A computation that neither reads what [same_seeded_state] leaves
    out nor writes anything depending on it. *)
Definition seed_driven {A} (m : M World A) : Prop :=
  forall w1 w2,
    same_seeded_state w1 w2 ->
    fst (m w1) = fst (m w2) /\ same_seeded_state (snd (m w1)) (snd (m w2)).

End SweepMemory.

(** ** A concrete random source

    A generator that first replays a script of raw draws and then
    continues as a linear congruential generator. *)

Module Scripted.

Record gen : Type := mkGen {
  script : list Z;
  lcg : Z
}.

Definition next (s : Z) : Z := (1103515245 * s + 12345) mod 2147483648.

Definition draw (g : gen) (n : Z) : Z * gen :=
  match script g with
  | x :: rest => (x mod n, mkGen rest (lcg g))
  | [] => ((next (lcg g) / 65536) mod n, mkGen [] (next (lcg g)))
  end.

Definition draw_range (g : gen) (n : Z) (Hn : 0 < n)
  : 0 <= fst (draw g n) < n :=
  match script g as l
    return 0 <= fst (match l with
                     | x :: rest => (x mod n, mkGen rest (lcg g))
                     | [] => ((next (lcg g) / 65536) mod n,
                              mkGen [] (next (lcg g)))
                     end) < n
  with
  | x :: _ => Z.mod_pos_bound x n Hn
  | [] => Z.mod_pos_bound (next (lcg g) / 65536) n Hn
  end.

#[export] Instance source : RandomSource := {|
  Random := gen;
  Random_seed := fun seed => mkGen [] (seed mod 2147483648);
  randbelow := draw;
  randbelow_range := draw_range
|}.

(** A freshly constructed environment whose generator will replay
    [draws]. *)
Definition fresh (n limit : Z) (draws : list Z) : GridWorld1D :=
  mkGridWorld1D n limit (mkGen draws 0) None None 0.

(** An environment in mid-episode, with a generator that will replay
    [draws]. *)
Definition episode (n limit : Z) (draws : list Z) (s g taken : Z)
  : GridWorld1D :=
  mkGridWorld1D n limit (mkGen draws 0) (Some s) (Some g) taken.

(** A process whose [random] module will replay [draws], with the policy
    globals still unbound. *)
Definition process (e : GridWorld1D) (draws : list Z) : World :=
  mkWorld e (mkGen draws 0) None None None None.

End Scripted.

(** ** Notions used to describe whole episodes *)

Section EpisodeNotions.

Context `{RS : RandomSource}.

(** Two environments that differ at most in their generator. *)
Definition same_episode (e e' : GridWorld1D) : Prop :=
  N e' = N e /\ step_limit e' = step_limit e /\ state e' = state e /\
  goal_state e' = goal_state e /\ steps_taken e' = steps_taken e.

(** Two environments with the same size, step limit and generator. *)
Definition same_generator (e e' : GridWorld1D) : Prop :=
  N e' = N e /\ step_limit e' = step_limit e /\ rng e' = rng e.

(** The action that heads from [s] to [g]. *)
Definition toward (s g : Z) : pyval :=
  if s <? g then PyInt 1 else PyInt 0.

(** The number of moves of the back-and-forth sweep from [s], heading
    [d] ([1] right, otherwise left), until it stands on [g]: straight
    there when [g] lies ahead, else to the wall ahead and back. *)
Definition sweep_length (d s g n : Z) : Z :=
  if d =? 1 then
    if s <? g then g - s else (n - 1 - s) + (n - 1 - g)
  else
    if g <? s then s - g else s + g.

(** What the runner needs of a policy, in terms of a condition [Pre] on
    the process before the policy is asked and a condition [Post] after:
    asked under [Pre], it returns an action that [step] accepts,
    establishes [Post] and leaves the episode as it is; and [Post]
    gives [Pre] back whatever the environment then becomes. *)
Definition keeps_episode (Pre Post : World -> Prop) (p : policy) : Prop :=
  (forall st w, Pre w ->
     exists a w', p st w = (Ok a, w') /\ left_or_right a /\ Post w' /\
                  same_episode (env w) (env w')) /\
  (forall w e', Post w -> Pre (set_env e' w)).

(** The process as [run_episode] has it when its loop starts: the
    environment after [reset], the [random] module's generator advanced
    by the direction draw, and the drawn direction stored. *)
Definition episode_start (w : World) (e1 : GridWorld1D) : World :=
  set_monotonous_direction
    (Some (fst (randbelow (global_random w) 2)))
    (set_global_random (snd (randbelow (global_random w) 2)) (set_env e1 w)).

(** The target of the expanding sweep, as [wildcard_policy] computes
    it from its globals. *)
Definition wild_target (n o x d : Z) : Z :=
  Z.max 0 (Z.min (n - 1) (o + d * x)).

(** The decision of [wildcard_policy] after the first step of an
    episode, on the values of its globals: the action, the new extent
    and the new direction. *)
Definition wild_next (n o x d st : Z) : Z * Z * Z :=
  let t := wild_target n o x d in
  if st =? t then
    if d =? 1 then (0, x, -1) else (1, x + 1, 1)
  else (if st <? t then 1 else 0, x, d).

(** The right and the left end of the sweep of extent [x] around [o]. *)
Definition wild_hi (n o x : Z) : Z := Z.max 0 (Z.min (n - 1) (o + x)).
Definition wild_lo (n o x : Z) : Z := Z.max 0 (Z.min (n - 1) (o - x)).

(** What holds between the decisions of an episode under the wildcard
    policy while the goal [g] has not been found: the agent is between
    the ends of the current sweep, and the goal is outside the cells
    already covered: heading right, those from the last left end up to
    the agent or the last right end; heading left, those from the agent
    or the last left end up to the right end. *)
Definition wild_inv (n o x d pos g : Z) : Prop :=
  1 <= x <= n - 1 /\ 0 <= o < n /\ 0 <= g < n /\ 0 <= pos < n /\
  ((d = 1 /\
    wild_lo n o (x - 1) <= pos <= wild_hi n o x /\
    (g < wild_lo n o (x - 1) \/ (pos < g /\ wild_hi n o (x - 1) < g))) \/
   (d = -1 /\
    wild_lo n o x <= pos <= wild_hi n o x /\
    ((g < pos /\ g < wild_lo n o (x - 1)) \/ wild_hi n o x < g))).

(** The cells the current sweep spans once it arrives: heading right,
    from the last left end to the right end; heading left, from the left
    end to the right end. *)
Definition wild_width (n o x d : Z) : Z :=
  wild_hi n o x - wild_lo n o (if d =? 1 then x - 1 else x).

(** The current sweep goes to an end that the one before already
    reached: it widens nothing. *)
Definition wild_stalled (n o x d : Z) : Prop :=
  if d =? 1 then wild_hi n o x = wild_hi n o (x - 1)
  else wild_lo n o x = wild_lo n o (x - 1).

(** The steps [q] accounted for so far (those of the sweeps up to the
    current one, taken in full) stay within the square of what the
    current sweep spans, plus once that span when the sweep widens
    nothing. *)
Definition wild_spent (n o x d q : Z) : Prop :=
  0 <= q /\
  (q <= wild_width n o x d * wild_width n o x d \/
   (wild_stalled n o x d /\
    q <= wild_width n o x d * wild_width n o x d + wild_width n o x d)).

(** The account after a decision: a turn adds the whole of the sweep it
    starts. *)
Definition wild_account (n o x d st q : Z) : Z :=
  if st =? wild_target n o x d then
    q + (if d =? 1 then wild_width n o x (-1) else wild_width n o (x + 1) 1)
  else q.

(** A bound on the steps the sweep still needs: the way to the current
    target, and what is left of [(n - 1)^2] after the account. *)
Definition wild_budget (n o x d pos q : Z) : Z :=
  Z.abs (pos - wild_target n o x d) + (n - 1) * (n - 1) - q.

End EpisodeNotions.

(** * Properties *)

Section StepFacts.

Context `{RS : RandomSource}.

Ltac run_monad :=
  unfold bind, gets, modify, ret, raise, py_assert, as_int; simpl.

(** What a [step] with an accepted action does in an episode under way:
    the one equation the reward rules below are read off from. *)
Lemma step_equation (e : GridWorld1D) (a : pyval) (s g : Z) :
  in_0_1 a = true -> state e = Some s -> goal_state e = Some g ->
  step a e =
    (let s' := move a s (N e) in
     if s' =? g then Ok (s', 10%float, true)
     else
       let reward := shaped_reward (Z.abs (s - g)) (Z.abs (s' - g)) in
       if steps_taken e + 1 >=? step_limit e
       then Ok (s', (reward + -100)%float, true)
       else Ok (s', reward, false),
     moved e (move a s (N e))).
Proof.
  intros Hin Hs Hg. destruct e as [n lim r st gl tk]. simpl in *. subst st gl.
  unfold step, move, moved. run_monad. rewrite Hin. simpl.
  destruct (py_eq_int a 0); simpl.
  - destruct (Z.max (s - 1) 0 =? g); simpl; [reflexivity|].
    destruct (tk + 1 >=? lim); reflexivity.
  - destruct (Z.min (s + 1) (n - 1) =? g); simpl; [reflexivity|].
    destruct (tk + 1 >=? lim); reflexivity.
Qed.

(** A rejected action: the assertion fires before anything else. *)
Lemma step_rejected (e : GridWorld1D) (a : pyval) :
  in_0_1 a = false ->
  step a e = (Raise (AssertionError invalid_action_msg), e).
Proof.
  intros Hin. unfold step. run_monad. rewrite Hin. reflexivity.
Qed.

Lemma move_in_range (a : pyval) (s n : Z) :
  0 <= s < n -> 0 <= move a s n < n.
Proof.
  intros H. unfold move. destruct (py_eq_int a 0); lia.
Qed.

End StepFacts.

Section StepRewards.

Context `{RS : RandomSource}.

(** C1: in an episode on a grid of size at least 2, a [step] whose move
    lands on the goal returns the new position, reward [+10.0] and
    [done = True]; nothing is assumed about [steps_taken] or
    [step_limit], so the step-limit penalty is never added on such a
    step, even when the step also exhausts the limit. *)
Theorem step_goal_reward (e : GridWorld1D) (a : pyval) (s g : Z) :
  2 <= N e ->
  in_0_1 a = true ->
  state e = Some s ->
  goal_state e = Some g ->
  move a s (N e) = g ->
  step a e = (Ok (g, 10%float, true), moved e g).
Proof.
  intros _ Hin Hs Hg Hmove.
  rewrite (step_equation e a s g Hin Hs Hg). cbv zeta.
  rewrite Hmove, Z.eqb_refl. reflexivity.
Qed.

(** C2: a [step] that does not land on the goal and leaves [steps_taken]
    below [step_limit] returns reward [-0.1] when the new distance to the
    goal is strictly smaller than the old one, and [-0.2] otherwise; the
    episode stays open. *)
Theorem step_shaped_reward (e : GridWorld1D) (a : pyval) (s g : Z) :
  in_0_1 a = true ->
  state e = Some s ->
  goal_state e = Some g ->
  move a s (N e) <> g ->
  steps_taken e + 1 < step_limit e ->
  exists reward : float,
    step a e = (Ok (move a s (N e), reward, false), moved e (move a s (N e))) /\
    (Z.abs (move a s (N e) - g) < Z.abs (s - g) -> reward = (-0.1)%float) /\
    (Z.abs (s - g) <= Z.abs (move a s (N e) - g) -> reward = (-0.2)%float).
Proof.
  intros Hin Hs Hg Hne Hlim.
  rewrite (step_equation e a s g Hin Hs Hg). cbv zeta.
  destruct (Z.eqb_spec (move a s (N e)) g) as [Heq | _]; [contradiction|].
  replace (steps_taken e + 1 >=? step_limit e) with false
    by (symmetry; rewrite Z.geb_leb; apply Z.leb_gt; lia).
  eexists. split; [reflexivity|]. unfold shaped_reward.
  destruct (Z.ltb_spec (Z.abs (move a s (N e) - g)) (Z.abs (s - g)));
    split; intros; solve [reflexivity | lia].
Qed.

(** C3: a [step] that does not land on the goal returns the shaped
    penalty ([-0.1] when strictly closer, [-0.2] otherwise); when
    [steps_taken] has reached [step_limit] after the step, [-100.0] is
    added to it and [done] is [True]; when it is still below, nothing is
    added and [done] is [False]. *)
Theorem step_limit_penalty (e : GridWorld1D) (a : pyval) (s g : Z) :
  in_0_1 a = true ->
  state e = Some s ->
  goal_state e = Some g ->
  move a s (N e) <> g ->
  exists shaped : float,
    (Z.abs (move a s (N e) - g) < Z.abs (s - g) /\ shaped = (-0.1)%float \/
     Z.abs (s - g) <= Z.abs (move a s (N e) - g) /\ shaped = (-0.2)%float) /\
    (step_limit e <= steps_taken e + 1 ->
     step a e = (Ok (move a s (N e), (shaped + -100.0)%float, true),
                 moved e (move a s (N e)))) /\
    (steps_taken e + 1 < step_limit e ->
     step a e = (Ok (move a s (N e), shaped, false),
                 moved e (move a s (N e)))).
Proof.
  intros Hin Hs Hg Hne.
  rewrite (step_equation e a s g Hin Hs Hg). cbv zeta.
  destruct (Z.eqb_spec (move a s (N e)) g) as [Heq | _]; [contradiction|].
  exists (shaped_reward (Z.abs (s - g)) (Z.abs (move a s (N e) - g))).
  split; [|split].
  - unfold shaped_reward.
    destruct (Z.ltb_spec (Z.abs (move a s (N e) - g)) (Z.abs (s - g)));
      [left | right]; split; solve [reflexivity | lia].
  - intros Hlim.
    replace (steps_taken e + 1 >=? step_limit e) with true
      by (symmetry; rewrite Z.geb_leb; apply Z.leb_le; lia).
    reflexivity.
  - intros Hlim.
    replace (steps_taken e + 1 >=? step_limit e) with false
      by (symmetry; rewrite Z.geb_leb; apply Z.leb_gt; lia).
    reflexivity.
Qed.

End StepRewards.

(** C1 at a concrete step: position 7, goal 8, 99 steps taken out of 100;
    moving right reaches the goal on the very step that exhausts the
    limit, and the reward is [+10.0]. *)
Lemma step_goal_reward_witness :
  step (PyInt 1) (Scripted.episode 10 100 [] 7 8 99)
  = (Ok (8, 10%float, true), moved (Scripted.episode 10 100 [] 7 8 99) 8).
Proof.
  apply (step_goal_reward (Scripted.episode 10 100 [] 7 8 99) (PyInt 1) 7 8);
    solve [reflexivity | simpl; lia].
Defined.

(** C2 at the first step of the scenario [size=10], start 5, goal 8:
    moving right to 6 is strictly closer and costs [-0.1]. *)
Lemma step_shaped_reward_witness :
  step (PyInt 1) (Scripted.episode 10 100 [] 5 8 0)
  = (Ok (6, (-0.1)%float, false), moved (Scripted.episode 10 100 [] 5 8 0) 6).
Proof.
  assert (Hgoal : move (PyInt 1) 5 10 <> 8) by discriminate.
  assert (Hlimit : 0 + 1 < 100) by lia.
  destruct (step_shaped_reward (Scripted.episode 10 100 [] 5 8 0) (PyInt 1) 5 8
              eq_refl eq_refl eq_refl Hgoal Hlimit)
    as (reward & Hstep & Hcloser & _).
  rewrite Hstep, Hcloser by (simpl; lia). reflexivity.
Defined.

(** C3 at a concrete step: a wall no-op at position 0 on the last allowed
    step costs [-0.2 + -100.0], that is [-100.2], and ends the episode. *)
Lemma step_limit_penalty_witness :
  step (PyInt 0) (Scripted.episode 10 100 [] 0 8 99)
  = (Ok (0, (-100.2)%float, true), moved (Scripted.episode 10 100 [] 0 8 99) 0).
Proof.
  assert (Hgoal : move (PyInt 0) 0 10 <> 8) by discriminate.
  destruct (step_limit_penalty (Scripted.episode 10 100 [] 0 8 99) (PyInt 0) 0 8
              eq_refl eq_refl eq_refl Hgoal)
    as (shaped & [[Hlt _] | [_ ->]] & Hlimit & _).
  - simpl in Hlt. lia.
  - rewrite Hlimit by (simpl; lia). reflexivity.
Defined.

Section InvalidActions.

Context `{RS : RandomSource}.

Lemma in_0_1_false (a : pyval) : ~ left_or_right a -> in_0_1 a = false.
Proof.
  unfold left_or_right, in_0_1. intros H.
  destruct (py_eq_int a 0); [exfalso; auto|].
  destruct (py_eq_int a 1); [exfalso; auto|reflexivity].
Qed.

(** An integer action is accepted exactly when it is [0] or [1]. *)
Lemma left_or_right_int (z : Z) : left_or_right (PyInt z) <-> z = 0 \/ z = 1.
Proof.
  unfold left_or_right. simpl. rewrite !Z.eqb_eq. reflexivity.
Qed.

(** C8: for every action that is neither left nor right, [step] raises
    the assertion's error with the invalid-action message, and the
    position is the one before the call: the value is not clamped into a
    move. *)
Theorem step_invalid_action_fails (e : GridWorld1D) (a : pyval) :
  ~ left_or_right a ->
  fst (step a e) = Raise (AssertionError invalid_action_msg) /\
  state (snd (step a e)) = state e.
Proof.
  intros H. rewrite (step_rejected e a (in_0_1_false a H)).
  split; reflexivity.
Qed.

(** C10: a [step] called with an invalid action leaves the environment as
    it was: [state], [goal_state] and [steps_taken] keep their values
    (and so does everything else). *)
Theorem step_invalid_action_keeps_state (e : GridWorld1D) (a : pyval) :
  ~ left_or_right a ->
  state (snd (step a e)) = state e /\
  goal_state (snd (step a e)) = goal_state e /\
  steps_taken (snd (step a e)) = steps_taken e /\
  snd (step a e) = e.
Proof.
  intros H. rewrite (step_rejected e a (in_0_1_false a H)).
  repeat split; reflexivity.
Qed.

End InvalidActions.

Lemma two_is_no_action : ~ left_or_right (PyInt 2).
Proof.
  intros [H | H]; discriminate H.
Qed.

(** C8 at the action [2] in mid-episode. *)
Lemma step_invalid_action_fails_witness :
  fst (step (PyInt 2) (Scripted.episode 10 100 [] 5 8 3))
  = Raise (AssertionError invalid_action_msg) /\
  state (snd (step (PyInt 2) (Scripted.episode 10 100 [] 5 8 3))) = Some 5.
Proof.
  apply (step_invalid_action_fails (Scripted.episode 10 100 [] 5 8 3)
           (PyInt 2) two_is_no_action).
Defined.

(** C10 at the action [None] in mid-episode. *)
Lemma step_invalid_action_keeps_state_witness :
  state (snd (step PyNone (Scripted.episode 10 100 [] 5 8 3))) = Some 5 /\
  goal_state (snd (step PyNone (Scripted.episode 10 100 [] 5 8 3))) = Some 8 /\
  steps_taken (snd (step PyNone (Scripted.episode 10 100 [] 5 8 3))) = 3 /\
  snd (step PyNone (Scripted.episode 10 100 [] 5 8 3))
  = Scripted.episode 10 100 [] 5 8 3.
Proof.
  apply (step_invalid_action_keeps_state
           (Scripted.episode 10 100 [] 5 8 3) PyNone).
  intros [H | H]; discriminate H.
Defined.

Section ResetFacts.

Context `{RS : RandomSource}.

Lemma set_rng_twice (r r' : Random) (e : GridWorld1D) :
  set_rng r (set_rng r' e) = set_rng r e.
Proof. reflexivity. Qed.

(** A draw on a non-empty range succeeds, stays in range and only
    advances the generator. *)
Lemma env_randrange_ok (e : GridWorld1D) (n : Z) :
  0 < n ->
  env_randrange n e
  = (Ok (fst (randbelow (rng e) n)), set_rng (snd (randbelow (rng e) n)) e) /\
  0 <= fst (randbelow (rng e) n) < n.
Proof.
  intros Hn. split; [|apply randbelow_range; exact Hn].
  unfold env_randrange, randrange.
  replace (0 <? n) with true by (symmetry; apply Z.ltb_lt; exact Hn).
  destruct (randbelow (rng e) n); reflexivity.
Qed.

Lemma env_randrange_empty (e : GridWorld1D) (n : Z) :
  n <= 0 -> env_randrange n e = (Raise ValueError, e).
Proof.
  intros Hn. unfold env_randrange, randrange.
  replace (0 <? n) with false by (symmetry; apply Z.ltb_ge; exact Hn).
  destruct e; reflexivity.
Qed.

(** One unfolding of the resampling loop. *)
Lemma reset_loop_unfold (fuel : nat) (start : Z) (e : GridWorld1D) (g : Z) :
  goal_state e = Some g -> 0 < N e ->
  reset_loop fuel start e =
    if start =? g then
      match fuel with
      | O => (OutOfFuel, e)
      | S fuel' =>
          reset_loop fuel' (fst (randbelow (rng e) (N e)))
                     (set_rng (snd (randbelow (rng e) (N e))) e)
      end
    else (Ok start, e).
Proof.
  intros Hg Hn. destruct fuel; simpl; unfold bind, gets, ret; rewrite Hg.
  - destruct (start =? g); reflexivity.
  - destruct (start =? g); [|reflexivity].
    destruct (env_randrange_ok e (N e) Hn) as [-> _]. reflexivity.
Qed.

(** The loop never raises; what it returns differs from the goal, is the
    candidate it was given or a fresh draw, and only the generator has
    advanced. *)
Lemma reset_loop_cases (fuel : nat) :
  forall (start : Z) (e : GridWorld1D) (g : Z),
    goal_state e = Some g -> 0 < N e -> 0 <= start < N e ->
    match reset_loop fuel start e with
    | (Ok s, e') => s <> g /\ 0 <= s < N e /\ exists r, e' = set_rng r e
    | (Raise _, _) => False
    | (OutOfFuel, _) => True
    end.
Proof.
  induction fuel as [|fuel IH]; intros start e g Hg Hn Hstart;
    rewrite (reset_loop_unfold _ start e g Hg Hn);
    destruct (Z.eqb_spec start g) as [Heq | Hne].
  - exact I.
  - repeat split; try lia. exists (rng e). destruct e; reflexivity.
  - destruct (env_randrange_ok e (N e) Hn) as [_ Hr].
    specialize (IH (fst (randbelow (rng e) (N e)))
                   (set_rng (snd (randbelow (rng e) (N e))) e) g Hg Hn Hr).
    exact IH.
  - repeat split; try lia. exists (rng e). destruct e; reflexivity.
Qed.

(** The loop returns once a candidate differs from the goal: the one it
    was given, or one of the first [fuel] redraws. *)
Lemma reset_loop_returns (fuel : nat) :
  forall (start : Z) (e : GridWorld1D) (g : Z),
    goal_state e = Some g -> 0 < N e ->
    (start <> g \/
     exists k, (k < fuel)%nat /\ fst (start_draws k (rng e) (N e)) <> g) ->
    exists s e', reset_loop fuel start e = (Ok s, e').
Proof.
  induction fuel as [|fuel IH]; intros start e g Hg Hn Hsome;
    rewrite (reset_loop_unfold _ start e g Hg Hn);
    destruct (Z.eqb_spec start g) as [Heq | Hne];
    try (eexists; eexists; reflexivity).
  - destruct Hsome as [Hne | (k & Hk & _)]; [contradiction | lia].
  - apply (IH (fst (randbelow (rng e) (N e)))
               (set_rng (snd (randbelow (rng e) (N e))) e) g Hg Hn).
    destruct Hsome as [Hne | (k & Hk & Hd)]; [contradiction|].
    destruct k as [|k]; simpl in Hd.
    + left. exact Hd.
    + right. exists k. split; [lia|]. simpl.
      destruct (randbelow (rng e) (N e)). exact Hd.
Qed.

(** [reset] in terms of its two first draws and the loop. *)
Lemma reset_unfold (fuel : nat) (e : GridWorld1D) :
  0 < N e ->
  let d1 := randbelow (rng e) (N e) in
  let e1 := set_goal_state (Some (fst d1)) (set_rng (snd d1) e) in
  let d2 := randbelow (rng e1) (N e) in
  reset fuel e =
    match reset_loop fuel (fst d2) (set_rng (snd d2) e1) with
    | (Ok s, e') => (Ok s, set_steps_taken 0 (set_state (Some s) e'))
    | (Raise x, e') => (Raise x, e')
    | (OutOfFuel, e') => (OutOfFuel, e')
    end.
Proof.
  intros Hn d1 e1 d2. unfold reset, bind, gets, modify, ret.
  destruct (env_randrange_ok e (N e) Hn) as [-> _]. simpl.
  pose proof (env_randrange_ok e1 (N e) Hn) as [Hd _].
  fold d1 e1. simpl in Hd |- *. rewrite Hd. fold d2.
  destruct (reset_loop fuel _ _) as [[s | x |] e']; reflexivity.
Qed.

(** What a [reset] that returns has established. *)
Lemma reset_cases (fuel : nat) (e : GridWorld1D) :
  0 < N e ->
  match reset fuel e with
  | (Ok s, e') =>
      exists g r, s <> g /\ 0 <= s < N e /\ 0 <= g < N e /\
                  e' = mkGridWorld1D (N e) (step_limit e) r (Some s) (Some g) 0
  | (Raise _, _) => False
  | (OutOfFuel, _) => True
  end.
Proof.
  intros Hn. rewrite (reset_unfold fuel e Hn). cbv zeta.
  set (d1 := randbelow (rng e) (N e)).
  set (e1 := set_goal_state (Some (fst d1)) (set_rng (snd d1) e)).
  set (d2 := randbelow (rng e1) (N e)).
  assert (Hg : 0 <= fst d1 < N e) by (apply randbelow_range; exact Hn).
  assert (Hs : 0 <= fst d2 < N e) by (apply randbelow_range; exact Hn).
  pose proof (reset_loop_cases fuel (fst d2) (set_rng (snd d2) e1) (fst d1)
                eq_refl Hn Hs) as H.
  destruct (reset_loop fuel _ _) as [[s | x |] e']; try exact H.
  destruct H as (Hne & Hb & r & ->). simpl in Hb.
  exists (fst d1), r. repeat split; try lia.
Qed.

End ResetFacts.

Section Episodes.

Context `{RS : RandomSource}.

(** C7: on a grid of size at least 2, [reset] raises nothing; whenever it
    returns, the returned position is the new [state], it differs from the
    goal drawn in that call, and [steps_taken] is 0; and it does return
    as soon as one of the start candidates (the first draw after the goal
    or one of the first [fuel] redraws) differs from the goal. *)
Theorem reset_start_differs_from_goal (fuel : nat) (e : GridWorld1D) :
  2 <= N e ->
  (forall x e', reset fuel e <> (Raise x, e')) /\
  (forall s e',
      reset fuel e = (Ok s, e') ->
      state e' = Some s /\
      goal_state e' <> Some s /\
      goal_state e' = Some (fst (randbelow (rng e) (N e))) /\
      steps_taken e' = 0) /\
  (forall k,
      (k <= fuel)%nat ->
      fst (start_draws k (snd (randbelow (rng e) (N e))) (N e))
      <> fst (randbelow (rng e) (N e)) ->
      exists s e', reset fuel e = (Ok s, e')).
Proof.
  intros HN. assert (Hn : 0 < N e) by lia.
  pose proof (reset_cases fuel e Hn) as Hc.
  pose proof (reset_unfold fuel e Hn) as Hu. cbv zeta in Hu.
  set (d1 := randbelow (rng e) (N e)) in *.
  set (e1 := set_goal_state (Some (fst d1)) (set_rng (snd d1) e)) in *.
  set (d2 := randbelow (rng e1) (N e)) in *.
  split; [|split].
  - intros x e' Heq. rewrite Heq in Hc. exact Hc.
  - intros s e' Heq.
    assert (Hs : 0 <= fst d2 < N e) by (apply randbelow_range; exact Hn).
    pose proof (reset_loop_cases fuel (fst d2) (set_rng (snd d2) e1) (fst d1)
                  eq_refl Hn Hs) as Hl.
    rewrite Hu in Heq.
    destruct (reset_loop fuel _ _) as [[s1 | x |] e1']; try discriminate Heq.
    destruct Hl as (Hne & _ & r & ->).
    injection Heq as <- <-. simpl.
    repeat split. intros Hbad. injection Hbad as Hbad. congruence.
  - intros k Hk Hd.
    destruct (reset_loop_returns fuel (fst d2) (set_rng (snd d2) e1) (fst d1)
                eq_refl Hn) as (s & e' & Hr).
    + destruct k as [|k]; simpl in Hd.
      * left. exact Hd.
      * right. exists k. split; [lia|].
        simpl. fold d2. change (rng e1) with (snd d1) in d2.
        unfold d2. destruct (randbelow (snd d1) (N e)). exact Hd.
    + rewrite Hu, Hr. eexists. eexists. reflexivity.
Qed.

Lemma left_or_right_accepted (a : pyval) : left_or_right a -> in_0_1 a = true.
Proof.
  unfold left_or_right, in_0_1. intros [-> | ->];
    [reflexivity | apply orb_true_r].
Qed.

(** One accepted [step] keeps both positions on the grid. *)
Lemma step_keeps_bounds (e : GridWorld1D) (a : pyval) :
  in_bounds e -> left_or_right a ->
  exists o e', step a e = (Ok o, e') /\ in_bounds e' /\ N e' = N e.
Proof.
  intros (s & g & Hs & Hg & Hsb & Hgb) Ha.
  rewrite (step_equation e a s g (left_or_right_accepted a Ha) Hs Hg).
  cbv zeta.
  assert (Hb : in_bounds (moved e (move a s (N e)))).
  { exists (move a s (N e)), g. simpl.
    repeat split; try lia; try exact Hg; apply move_in_range; exact Hsb. }
  destruct (move a s (N e) =? g);
    [|destruct (steps_taken e + 1 >=? step_limit e)];
    eexists; eexists; (split; [reflexivity|]); (split; [exact Hb|reflexivity]).
Qed.

Lemma step_seq_keeps_bounds (actions : list pyval) :
  forall e, in_bounds e -> Forall left_or_right actions ->
  exists outs e', step_seq actions e = (Ok outs, e') /\
                  in_bounds e' /\ N e' = N e.
Proof.
  induction actions as [|a rest IH]; intros e Hb Hall.
  - exists [], e. repeat split. exact Hb.
  - inversion Hall as [|? ? Ha Hrest]; subst.
    destruct (step_keeps_bounds e a Hb Ha) as (o & e1 & Hstep & Hb1 & HN1).
    destruct (IH e1 Hb1 Hrest) as (outs & e2 & Hseq & Hb2 & HN2).
    exists (o :: outs), e2. simpl. unfold bind. rewrite Hstep, Hseq.
    repeat split; [exact Hb2 | congruence].
Qed.

(** C6: on a grid of size at least 2, after a [reset] that returned and
    any sequence of [step] calls with valid actions, every call has
    returned, and [state] and [goal_state] are positions in [[0, N)]. *)
Theorem positions_stay_in_bounds
    (fuel : nat) (e e1 : GridWorld1D) (s0 : Z) (actions : list pyval) :
  2 <= N e ->
  reset fuel e = (Ok s0, e1) ->
  Forall left_or_right actions ->
  exists outs e2,
    step_seq actions e1 = (Ok outs, e2) /\
    N e2 = N e /\
    exists s g, state e2 = Some s /\ goal_state e2 = Some g /\
                0 <= s < N e /\ 0 <= g < N e.
Proof.
  intros HN Hreset Hall. assert (Hn : 0 < N e) by lia.
  pose proof (reset_cases fuel e Hn) as Hc. rewrite Hreset in Hc.
  destruct Hc as (g & r & Hne & Hs & Hg & ->).
  destruct (step_seq_keeps_bounds actions
              (mkGridWorld1D (N e) (step_limit e) r (Some s0) (Some g) 0))
    as (outs & e2 & Hseq & (s & g' & Hs2 & Hg2 & Hsb & Hgb) & HN2).
  - exists s0, g. simpl. repeat split; try lia.
  - exact Hall.
  - simpl in HN2. exists outs, e2. split; [exact Hseq|]. split; [exact HN2|].
    exists s, g'. rewrite <- HN2. repeat split; try lia; assumption.
Qed.

(** With a single cell every draw is that cell, so the resampling loop
    of [reset] never finds a start different from the goal. *)
Lemma reset_loop_single_cell (fuel : nat) :
  forall e, N e = 1 -> goal_state e = Some 0 ->
            exists e', reset_loop fuel 0 e = (OutOfFuel, e').
Proof.
  induction fuel as [|fuel IH]; intros e HN Hg;
    rewrite (reset_loop_unfold _ 0 e 0 Hg ltac:(lia)); simpl.
  - exists e. reflexivity.
  - assert (Hd : fst (randbelow (rng e) (N e)) = 0).
    { pose proof (randbelow_range (rng e) (N e) ltac:(lia)). lia. }
    rewrite Hd. apply IH; [exact HN | exact Hg].
Qed.

(** C5, as the code has it: constructing an environment with a size
    below 2 succeeds, the size being stored unchecked; the first [reset]
    is where it shows: it raises [ValueError] (empty range) when the size
    is at most 0, and never returns when the size is 1. *)
Theorem init_accepts_small_size (n limit seed : Z) :
  n < 2 ->
  exists e,
    init n limit seed = Ok e /\ N e = n /\
    (n <= 0 -> forall fuel, reset fuel e = (Raise ValueError, e)) /\
    (n = 1 -> forall fuel, exists e', reset fuel e = (OutOfFuel, e')).
Proof.
  intros Hn. eexists. split; [reflexivity|]. split; [reflexivity|]. split.
  - intros Hle fuel. unfold reset, bind, gets. simpl.
    rewrite env_randrange_empty by (simpl; exact Hle). reflexivity.
  - intros -> fuel.
    set (e := mkGridWorld1D 1 limit (Random_seed seed) None None 0).
    pose proof (reset_unfold fuel e ltac:(simpl; lia)) as Hu. cbv zeta in Hu.
    rewrite Hu.
    set (d1 := randbelow (rng e) (N e)) in *.
    set (e1 := set_goal_state (Some (fst d1)) (set_rng (snd d1) e)) in *.
    set (d2 := randbelow (rng e1) (N e)) in *.
    assert (H1 : fst d1 = 0).
    { pose proof (randbelow_range (rng e) (N e) ltac:(simpl; lia)) as H.
      fold d1 in H. simpl in H. lia. }
    assert (H2 : fst d2 = 0).
    { pose proof (randbelow_range (rng e1) (N e) ltac:(simpl; lia)) as H.
      fold d2 in H. simpl in H. lia. }
    destruct (reset_loop_single_cell fuel (set_rng (snd d2) e1)) as [e' He'].
    + reflexivity.
    + simpl. rewrite H1. reflexivity.
    + rewrite H2, He'. exists e'. reflexivity.
Qed.

End Episodes.

(** C7 at a concrete [reset]: the goal draw is 8, the first start draw is
    8 as well and is rejected, the redraw 5 is returned. *)
Lemma reset_start_differs_from_goal_witness :
  state (snd (reset 3 (Scripted.fresh 10 100 [8; 8; 5]))) = Some 5 /\
  goal_state (snd (reset 3 (Scripted.fresh 10 100 [8; 8; 5]))) <> Some 5 /\
  goal_state (snd (reset 3 (Scripted.fresh 10 100 [8; 8; 5]))) = Some 8 /\
  steps_taken (snd (reset 3 (Scripted.fresh 10 100 [8; 8; 5]))) = 0.
Proof.
  assert (H : 2 <= N (Scripted.fresh 10 100 [8; 8; 5])) by (simpl; lia).
  exact (proj1 (proj2 (reset_start_differs_from_goal
                         3 (Scripted.fresh 10 100 [8; 8; 5]) H))
               5 (snd (reset 3 (Scripted.fresh 10 100 [8; 8; 5]))) eq_refl).
Defined.

(** C6 at the scenario [size=10], goal 8, start 5, actions right, right,
    right. *)
Lemma positions_stay_in_bounds_witness :
  exists outs e2,
    step_seq [PyInt 1; PyInt 1; PyInt 1]
             (snd (reset 3 (Scripted.fresh 10 100 [8; 5])))
    = (Ok outs, e2) /\
    N e2 = 10 /\
    exists s g, state e2 = Some s /\ goal_state e2 = Some g /\
                0 <= s < 10 /\ 0 <= g < 10.
Proof.
  apply (positions_stay_in_bounds 3 (Scripted.fresh 10 100 [8; 5])
           (snd (reset 3 (Scripted.fresh 10 100 [8; 5]))) 5
           [PyInt 1; PyInt 1; PyInt 1]).
  - simpl. lia.
  - reflexivity.
  - repeat constructor; right; reflexivity.
Defined.

(** C5 as stated fails: [GridWorld1D(N=1, step_limit=100, seed=42)] is
    constructed without any error. *)
Lemma init_size_one_succeeds :
  1 < 2 /\ ~ (exists x, @init Scripted.source 1 100 42 = Raise x).
Proof.
  split; [lia|]. intros [x Hx]. discriminate Hx.
Qed.

(** The amended C5 at size 1. *)
Lemma init_accepts_small_size_witness :
  exists e,
    @init Scripted.source 1 100 42 = Ok e /\ N e = 1 /\
    (1 <= 0 -> forall fuel, reset fuel e = (Raise ValueError, e)) /\
    (1 = 1 -> forall fuel, exists e', reset fuel e = (OutOfFuel, e')).
Proof.
  apply (@init_accepts_small_size Scripted.source 1 100 42). lia.
Defined.

Section Wildcard.

Context `{RS : RandomSource}.

(** On a non-empty interval the textbook clamp is the program's
    [max(0, min(hi, x))]. *)
Lemma clamp_max_min (x hi : Z) :
  0 <= hi -> SweepSpec.clamp x 0 hi = Z.max 0 (Z.min hi x).
Proof.
  intros Hhi. unfold SweepSpec.clamp.
  destruct (Z.ltb_spec x 0); [lia|].
  destruct (Z.ltb_spec hi x); lia.
Qed.

(** The globals hold exactly the memory [sweep_of] reads from them. *)
Lemma sweep_of_some (w : World) (m : SweepSpec.sweep) :
  sweep_of w = Some m ->
  wildcard_origin w = Some (SweepSpec.origin m) /\
  wildcard_extent w = Some (SweepSpec.extent m) /\
  wildcard_direction w = Some (SweepSpec.sign (SweepSpec.heading m)).
Proof.
  unfold sweep_of.
  destruct (wildcard_origin w) as [o|]; [|discriminate].
  destruct (wildcard_extent w) as [x|]; [|discriminate].
  destruct (wildcard_direction w) as [d|]; [|discriminate].
  destruct (Z.eqb_spec d 1) as [-> | _].
  - intros H. injection H as <-. repeat split.
  - destruct (Z.eqb_spec d (-1)) as [-> | _]; [|discriminate].
    intros H. injection H as <-. repeat split.
Qed.

(** C9: [wildcard_policy] is the expanding sweep.  Whenever the sweep of
    the specification makes a decision from the memory held in the
    globals (always at [steps_taken == 0]; later, when the globals hold a
    sweep memory), the policy returns that action and leaves that memory
    in the globals, changing nothing else. *)
Theorem wildcard_policy_follows_sweep
    (w : World) (st : Z) (a : SweepSpec.action) (m' : SweepSpec.sweep) :
  1 <= N (env w) ->
  SweepSpec.decide (N (env w)) (steps_taken (env w)) st (sweep_of w)
  = Some (a, m') ->
  wildcard_policy st w = (Ok (SweepSpec.code a), with_sweep m' w).
Proof.
  intros HN. unfold SweepSpec.decide, wildcard_policy.
  unfold bind at 1. unfold gets at 1.
  destruct (steps_taken (env w) =? 0).
  - intros H. injection H as <- <-. reflexivity.
  - destruct (sweep_of w) as [m|] eqn:Hm; [|discriminate].
    destruct (sweep_of_some w m Hm) as (Ho & Hx & Hd).
    unfold SweepSpec.target. rewrite clamp_max_min by lia.
    destruct w as [e gr md wo wx wd]. simpl in *. subst wo wx wd.
    destruct m as [o x h]. simpl.
    unfold bind, gets, modify, ret, global. simpl.
    set (t := Z.max 0 (Z.min (N e - 1) (o + SweepSpec.sign h * x))).
    rewrite Z.gtb_ltb.
    destruct h; simpl;
      destruct (Z.eqb_spec st t) as [Heq | Hne]; simpl;
      destruct (Z.ltb_spec st t) as [L1 | L1];
      destruct (Z.ltb_spec t st) as [L2 | L2]; try lia;
      intros Hd; injection Hd as <- <-; reflexivity.
Qed.

End Wildcard.

(** C9 at the scenario [size=10], origin 4: on arrival at the first
    target 5 the policy turns to [-1] with the extent still 1 and moves
    left. *)
Lemma wildcard_policy_follows_sweep_witness :
  wildcard_policy 5
    (mkWorld (Scripted.episode 10 100 [] 5 8 1) (Scripted.mkGen [] 0)
             None (Some 4) (Some 1) (Some 1))
  = (Ok (PyInt 0),
     mkWorld (Scripted.episode 10 100 [] 5 8 1) (Scripted.mkGen [] 0)
             None (Some 4) (Some 1) (Some (-1))).
Proof.
  apply (wildcard_policy_follows_sweep
           (mkWorld (Scripted.episode 10 100 [] 5 8 1) (Scripted.mkGen [] 0)
                    None (Some 4) (Some 1) (Some 1))
           5 SweepSpec.Left (SweepSpec.mkSweep 4 1 SweepSpec.Minus)).
  - simpl. lia.
  - reflexivity.
Defined.

Section Reproducibility.

Context `{RS : RandomSource}.

Lemma seed_driven_ret {A} (a : A) : seed_driven (ret a).
Proof. intros w1 w2 H. split; [reflexivity | exact H]. Qed.

Lemma seed_driven_raise {A} (x : exn) : seed_driven (@raise World A x).
Proof. intros w1 w2 H. split; [reflexivity | exact H]. Qed.

Lemma seed_driven_global (v : option Z) : seed_driven (global v).
Proof.
  destruct v; [apply seed_driven_ret | apply seed_driven_raise].
Qed.

Lemma seed_driven_bind {A B} (m : M World A) (k : A -> M World B) :
  seed_driven m -> (forall a, seed_driven (k a)) -> seed_driven (bind m k).
Proof.
  intros Hm Hk w1 w2 H. unfold bind.
  destruct (Hm w1 w2 H) as [Hr Hw].
  destruct (m w1) as [r1 w1'], (m w2) as [r2 w2']. simpl in Hr, Hw. subst r2.
  destruct r1 as [a | x |]; [apply Hk; exact Hw | |]; split;
    solve [reflexivity | exact Hw].
Qed.

Lemma seed_driven_on_env {A} (m : M GridWorld1D A) : seed_driven (on_env m).
Proof.
  intros w1 w2 (He & Ho & Hx & Hd). unfold on_env. rewrite He.
  destruct (m (env w2)) as [r e']. simpl.
  split; [reflexivity|]. repeat split; assumption.
Qed.

Lemma seed_driven_env_field {A} (f : GridWorld1D -> A) :
  seed_driven (gets (fun w => f (env w))).
Proof.
  intros w1 w2 H. unfold gets. simpl.
  split; [|exact H]. destruct H as [-> _]. reflexivity.
Qed.

Lemma seed_driven_wildcard_origin : seed_driven (gets wildcard_origin).
Proof.
  intros w1 w2 H. unfold gets. simpl.
  split; [|exact H]. destruct H as (_ & -> & _). reflexivity.
Qed.

Lemma seed_driven_wildcard_extent : seed_driven (gets wildcard_extent).
Proof.
  intros w1 w2 H. unfold gets. simpl.
  split; [|exact H]. destruct H as (_ & _ & -> & _). reflexivity.
Qed.

Lemma seed_driven_wildcard_direction : seed_driven (gets wildcard_direction).
Proof.
  intros w1 w2 H. unfold gets. simpl.
  split; [|exact H]. destruct H as (_ & _ & _ & ->). reflexivity.
Qed.

Lemma seed_driven_set_wildcard_origin (v : option Z) :
  seed_driven (modify (set_wildcard_origin v)).
Proof.
  intros w1 w2 (He & Ho & Hx & Hd). unfold modify. simpl.
  split; [reflexivity|]. repeat split; assumption.
Qed.

Lemma seed_driven_set_wildcard_extent (v : option Z) :
  seed_driven (modify (set_wildcard_extent v)).
Proof.
  intros w1 w2 (He & Ho & Hx & Hd). unfold modify. simpl.
  split; [reflexivity|]. repeat split; assumption.
Qed.

Lemma seed_driven_set_wildcard_direction (v : option Z) :
  seed_driven (modify (set_wildcard_direction v)).
Proof.
  intros w1 w2 (He & Ho & Hx & Hd). unfold modify. simpl.
  split; [reflexivity|]. repeat split; assumption.
Qed.

Create HintDb seeded.

#[local] Hint Resolve seed_driven_ret seed_driven_raise seed_driven_global
  seed_driven_on_env seed_driven_wildcard_origin seed_driven_wildcard_extent
  seed_driven_wildcard_direction seed_driven_set_wildcard_origin
  seed_driven_set_wildcard_extent seed_driven_set_wildcard_direction
  : seeded.

Ltac seeded :=
  repeat first
    [ solve [auto with seeded]
    | apply (seed_driven_env_field steps_taken)
    | apply (seed_driven_env_field N)
    | apply seed_driven_bind; [|intros]
    | match goal with
      | |- seed_driven (if ?c then _ else _) => destruct c
      end ].

(** The random policy draws from the environment's generator only. *)
Lemma random_policy_seed_driven (st : Z) : seed_driven (random_policy st).
Proof. unfold random_policy. seeded. Qed.

(** The wildcard policy draws nothing and reads the environment and its
    own globals only. *)
Lemma wildcard_policy_seed_driven (st : Z) : seed_driven (wildcard_policy st).
Proof. unfold wildcard_policy. seeded. Qed.

Lemma episode_loop_seed_driven (policy_fn : policy) (max_steps : Z) :
  (forall st, seed_driven (policy_fn st)) ->
  forall todo t st total,
    seed_driven (episode_loop policy_fn max_steps todo t st total).
Proof.
  intros Hp. induction todo as [|todo IH]; intros t st total; simpl.
  - apply seed_driven_ret.
  - apply seed_driven_bind; [apply Hp | intros a].
    apply seed_driven_bind; [apply seed_driven_on_env | intros [[s r] d]].
    destruct d; [apply seed_driven_ret | apply IH].
Qed.

(** The direction draw of [run_episode] always succeeds; it advances the
    [random] module's generator and fills [monotonous_direction]. *)
Lemma direction_draw {A} (k : M World A) (w : World) :
  (d <- global_randrange 2 ;;
   modify (set_monotonous_direction (Some d)) ;; k) w
  = k (set_monotonous_direction
         (Some (fst (randbelow (global_random w) 2)))
         (set_global_random (snd (randbelow (global_random w) 2)) w)).
Proof.
  unfold bind, global_randrange, randrange, modify. simpl.
  destruct (randbelow (global_random w) 2). reflexivity.
Qed.

(** An episode of a policy that reads seeded state only has the same
    outcome and leaves the same environment whatever the state of the
    [random] module's generator: the direction [run_episode] draws from
    it goes unread. *)
Lemma run_episode_seed_driven
    (fuel : nat) (policy_fn : policy) (max_steps : Z) :
  (forall st, seed_driven (policy_fn st)) ->
  seed_driven (run_episode fuel policy_fn max_steps).
Proof.
  intros Hp. unfold run_episode.
  apply seed_driven_bind; [apply seed_driven_on_env | intros st].
  intros w1 w2 H. rewrite !direction_draw.
  apply episode_loop_seed_driven; [exact Hp|].
  destruct H as (He & Ho & Hx & Hd). repeat split; assumption.
Qed.

Lemma run_episodes_seed_driven
    (fuel : nat) (policy_fn : policy) (max_steps : Z) (count : nat) :
  (forall st, seed_driven (policy_fn st)) ->
  seed_driven (run_episodes fuel policy_fn max_steps count).
Proof.
  intros Hp. induction count as [|count IH]; simpl.
  - apply seed_driven_ret.
  - apply seed_driven_bind; [apply run_episode_seed_driven, Hp | intros o].
    apply seed_driven_bind; [exact IH | intros os]. apply seed_driven_ret.
Qed.

End Reproducibility.

(** The scenario [size=10], start 5, goal 8, actions right, right, right:
    positions 6, 7, 8, rewards [-0.1], [-0.1], [+10.0], terminal on the
    third step only. *)
Example three_steps_to_the_goal :
  fst (step_seq [PyInt 1; PyInt 1; PyInt 1] (Scripted.episode 10 100 [] 5 8 0))
  = Ok [(6, (-0.1)%float, false); (7, (-0.1)%float, false);
        (8, 10%float, true)].
Proof. vm_compute. reflexivity. Qed.

(** Pushing against the left wall: the position stays 0 and each reward
    is [-0.2]. *)
Example wall_no_op :
  fst (step_seq [PyInt 0; PyInt 0] (Scripted.episode 10 100 [] 0 8 0))
  = Ok [(0, (-0.2)%float, false); (0, (-0.2)%float, false)].
Proof. vm_compute. reflexivity. Qed.

(** Values that compare equal to [0] or [1] pass the assertion of
    [step]; other numbers, [None] and strings do not. *)
Example accepted_actions :
  map in_0_1 [PyInt 0; PyInt 1; PyBool false; PyBool true; PyFloat 1%float;
              PyInt 2; PyInt (-1); PyFloat 0.5%float; PyNone; PyStr "left"]
  = [true; true; true; true; true; false; false; false; false; false].
Proof. vm_compute. reflexivity. Qed.

(** The sweep of the scenario [size=10], origin 4: the first target is 5;
    on arrival the direction turns with the extent kept, and the next
    target is 3; on arrival there the extent widens, and the target is 6. *)
Example sweep_targets :
  SweepSpec.target 10 (SweepSpec.mkSweep 4 1 SweepSpec.Plus) = 5 /\
  SweepSpec.arrive (SweepSpec.mkSweep 4 1 SweepSpec.Plus)
  = SweepSpec.mkSweep 4 1 SweepSpec.Minus /\
  SweepSpec.target 10 (SweepSpec.mkSweep 4 1 SweepSpec.Minus) = 3 /\
  SweepSpec.target 10 (SweepSpec.arrive (SweepSpec.mkSweep 4 1 SweepSpec.Minus))
  = 6.
Proof. repeat split. Qed.

(** * Further properties of the environment *)

Section StepBehaviour.

Context `{RS : RandomSource}.

(** The penalties are never mistaken for the goal reward. *)
Lemma penalty_is_not_goal_reward (old_dist new_dist : Z) :
  shaped_reward old_dist new_dist <> 10%float /\
  (shaped_reward old_dist new_dist + -100)%float <> 10%float.
Proof.
  unfold shaped_reward. destruct (new_dist <? old_dist); split; intros H;
    apply (f_equal (fun f => PrimFloat.eqb f 10)) in H;
    vm_compute in H; discriminate H.
Qed.

(** On a freshly constructed environment, before any [reset], a [step]
    with an accepted action raises [TypeError] (the position is [None])
    and changes nothing: not even [steps_taken]. *)
Theorem step_before_reset (e : GridWorld1D) (a : pyval) :
  state e = None ->
  left_or_right a ->
  step a e = (Raise TypeError, e).
Proof.
  intros Hs Ha. destruct e as [n lim r st gl tk]. simpl in Hs. subst st.
  unfold step, py_assert. rewrite (left_or_right_accepted a Ha).
  unfold bind, gets, modify, ret, raise, as_int. simpl.
  destruct (py_eq_int a 0); reflexivity.
Qed.

(** In an episode, a [step] with an accepted action reports [done]
    exactly when it landed on the goal or [steps_taken] has reached
    [step_limit], and its reward is [10.0] exactly when it landed on the
    goal. *)
Theorem step_done_iff (e : GridWorld1D) (a : pyval) (s g : Z) :
  left_or_right a ->
  state e = Some s ->
  goal_state e = Some g ->
  exists reward done,
    step a e = (Ok (move a s (N e), reward, done), moved e (move a s (N e))) /\
    (done = true <->
     move a s (N e) = g \/ step_limit e <= steps_taken e + 1) /\
    (reward = 10%float <-> move a s (N e) = g).
Proof.
  intros Ha Hs Hg.
  rewrite (step_equation e a s g (left_or_right_accepted a Ha) Hs Hg).
  cbv zeta.
  destruct (penalty_is_not_goal_reward
              (Z.abs (s - g)) (Z.abs (move a s (N e) - g))) as [Hp Hq].
  destruct (Z.eqb_spec (move a s (N e)) g) as [Heq | Hne].
  - eexists. eexists. split; [reflexivity|]. split; split; auto.
  - rewrite Z.geb_leb.
    destruct (Z.leb_spec (step_limit e) (steps_taken e + 1)) as [Hl | Hl];
      eexists; eexists; (split; [reflexivity|]); split; split;
      try solve [auto | intros [? | ?]; [contradiction | lia]
                | discriminate | intros; contradiction].
Qed.

(** In an episode on the grid, an accepted [step] moves the position by
    at most one cell, and leaves it where it was only when pushing
    against the wall it stands at; it adds exactly one to [steps_taken]
    and changes neither the goal, the size, the step limit nor the
    generator. *)
Theorem step_moves_one_cell (e : GridWorld1D) (a : pyval) (s g : Z) :
  left_or_right a ->
  state e = Some s ->
  goal_state e = Some g ->
  0 <= s < N e ->
  exists s' reward done e',
    step a e = (Ok (s', reward, done), e') /\
    state e' = Some s' /\
    Z.abs (s' - s) <= 1 /\
    (s' = s <-> (py_eq_int a 0 = true /\ s = 0) \/
                (py_eq_int a 0 = false /\ s = N e - 1)) /\
    steps_taken e' = steps_taken e + 1 /\
    goal_state e' = Some g /\ N e' = N e /\
    step_limit e' = step_limit e /\ rng e' = rng e.
Proof.
  intros Ha Hs Hg Hb.
  assert (Hstep : exists reward done,
             step a e = (Ok (move a s (N e), reward, done),
                         moved e (move a s (N e)))).
  { rewrite (step_equation e a s g (left_or_right_accepted a Ha) Hs Hg).
    cbv zeta. destruct (move a s (N e) =? g);
      [|destruct (steps_taken e + 1 >=? step_limit e)];
      eexists; eexists; reflexivity. }
  destruct Hstep as (reward & done & Hstep).
  exists (move a s (N e)), reward, done, (moved e (move a s (N e))).
  split; [exact Hstep|]. simpl. split; [reflexivity|].
  unfold move. destruct (py_eq_int a 0).
  - repeat split; try lia; try assumption.
  - repeat split; try lia; try assumption.
Qed.

(** Heading for the goal reaches it: from a position other than the
    goal, as many accepted steps toward the goal as the distance all
    return, end on the goal, and the last one reports the goal reward
    [10.0] and [done]. *)
Theorem walk_to_goal (k : nat) :
  forall (e : GridWorld1D) (s g : Z),
    state e = Some s ->
    goal_state e = Some g ->
    0 <= s < N e -> 0 <= g < N e ->
    Z.abs (g - s) = Z.of_nat (S k) ->
    exists outs e',
      step_seq (repeat (toward s g) (S k)) e = (Ok outs, e') /\
      List.length outs = S k /\
      last outs (0, 0%float, false) = (g, 10%float, true) /\
      state e' = Some g /\
      steps_taken e' = steps_taken e + Z.of_nat (S k).
Proof.
  induction k as [|k IH]; intros e s g Hs Hg Hsb Hgb Hd.
  - assert (Hm : move (toward s g) s (N e) = g).
    { unfold toward, move. destruct (Z.ltb_spec s g); simpl; lia. }
    assert (Ha : in_0_1 (toward s g) = true).
    { unfold toward. destruct (s <? g); reflexivity. }
    simpl. unfold bind.
    rewrite (step_equation e _ s g Ha Hs Hg). cbv zeta.
    rewrite Hm, Z.eqb_refl. unfold ret.
    eexists. eexists. split; [reflexivity|]. repeat split.
  - assert (Ha : in_0_1 (toward s g) = true).
    { unfold toward. destruct (s <? g); reflexivity. }
    set (s1 := move (toward s g) s (N e)).
    assert (Hs1 : 0 <= s1 < N e /\ Z.abs (g - s1) = Z.of_nat (S k) /\
                  toward s1 g = toward s g /\ s1 <> g).
    { unfold s1, toward, move.
      destruct (Z.ltb_spec s g); simpl;
        [destruct (Z.ltb_spec (Z.min (s + 1) (N e - 1)) g)
        |destruct (Z.ltb_spec (Z.max (s - 1) 0) g)];
        repeat split; try reflexivity; lia. }
    destruct Hs1 as (Hb1 & Hd1 & Ht1 & Hne1).
    destruct (IH (moved e s1) s1 g eq_refl Hg Hb1 Hgb Hd1)
      as (outs & e' & Hseq & Hlen & Hlast & Hst & Htk).
    change (repeat (toward s g) (S (S k)))
      with (toward s g :: repeat (toward s g) (S k)).
    cbn [step_seq]. unfold bind at 1.
    rewrite (step_equation e _ s g Ha Hs Hg). cbv zeta. fold s1.
    rewrite Ht1 in Hseq.
    destruct (Z.eqb_spec s1 g) as [Heq | _]; [contradiction|].
    destruct (steps_taken e + 1 >=? step_limit e);
      unfold bind; rewrite Hseq; unfold ret;
      (eexists; eexists; split; [reflexivity|]);
      (repeat split;
       [ simpl; rewrite Hlen; reflexivity
       | destruct outs as [|o outs]; [discriminate Hlen | exact Hlast]
       | exact Hst
       | rewrite Htk; simpl steps_taken; lia ]).
Qed.

End StepBehaviour.

Section ResetBehaviour.

Context `{RS : RandomSource}.

(** The resampling loop reads the goal, the size and the generator
    only. *)
Lemma reset_loop_ignores_position (fuel : nat) :
  forall (start : Z) (e : GridWorld1D) (st : option Z) (tk : Z),
    reset_loop fuel start (set_steps_taken tk (set_state st e))
    = (fst (reset_loop fuel start e),
       set_steps_taken tk (set_state st (snd (reset_loop fuel start e)))).
Proof.
  induction fuel as [|fuel IH]; intros start e st tk; simpl;
    unfold bind, gets, ret; simpl;
    destruct (match goal_state e with
              | Some g => start =? g
              | None => false
              end); try reflexivity.
  unfold env_randrange. simpl.
  destruct (randrange (rng e) (N e)) as [[v | x |] r']; try reflexivity.
  apply (IH v (set_rng r' e) st tk).
Qed.

(** [reset] starts from scratch: what it returns and the environment it
    leaves depend on the size, the step limit and the generator only,
    not on the episode before. *)
Theorem reset_forgets_episode
    (fuel : nat) (e1 e2 e' : GridWorld1D) (s : Z) :
  same_generator e1 e2 ->
  reset fuel e1 = (Ok s, e') ->
  reset fuel e2 = (Ok s, e').
Proof.
  intros (HN & Hl & Hr) Hreset.
  destruct e1 as [n lim r st1 g1 tk1], e2 as [n2 lim2 r2 st2 g2 tk2].
  simpl in HN, Hl, Hr. subst n2 lim2 r2.
  revert Hreset. unfold reset, bind, gets, modify. simpl.
  unfold env_randrange. simpl.
  destruct (randrange r n) as [[g | x |] r1]; try discriminate. simpl.
  destruct (randrange r1 n) as [[c | x |] r2]; try discriminate. simpl.
  pose proof (reset_loop_ignores_position fuel c
                (mkGridWorld1D n lim r2 st1 (Some g) tk1) st2 tk2) as Hi.
  unfold set_steps_taken, set_state in Hi. simpl in Hi.
  unfold set_rng, set_goal_state. simpl. rewrite Hi. clear Hi.
  destruct (reset_loop fuel c (mkGridWorld1D n lim r2 st1 (Some g) tk1))
    as [[s1 | x |] e1']; try discriminate.
  simpl. unfold ret. intros H. injection H as <- <-. reflexivity.
Qed.

End ResetBehaviour.

(** * Properties of the policies *)

Section Policies.

Context `{RS : RandomSource}.

(** The random policy always returns [0] or [1], and all it changes is
    the state of the environment's generator. *)
Theorem random_policy_action (st : Z) (w : World) :
  exists a r,
    random_policy st w = (Ok (PyInt a), set_env (set_rng r (env w)) w) /\
    (a = 0 \/ a = 1).
Proof.
  unfold random_policy, bind, on_env, env_randrange, randrange, ret. simpl.
  pose proof (randbelow_range (rng (env w)) 2 ltac:(lia)) as Hr.
  destruct (randbelow (rng (env w)) 2) as [a r]. simpl in Hr.
  exists a, r. split; [reflexivity | lia].
Qed.

(** With its direction global holding [0] or [1], on a grid of at least
    two cells, the monotonous policy returns [0] or [1], stores that
    very action as its direction, never pushes against a wall (the move
    changes the position), turns exactly when it stands at the wall it
    was heading for, and changes nothing else. *)
Theorem monotonous_policy_moves (st d : Z) (w : World) :
  monotonous_direction w = Some d ->
  d = 0 \/ d = 1 ->
  2 <= N (env w) ->
  0 <= st < N (env w) ->
  exists a,
    monotonous_policy st w
    = (Ok (PyInt a), set_monotonous_direction (Some a) w) /\
    (a = 0 \/ a = 1) /\
    move (PyInt a) st (N (env w)) <> st /\
    (a <> d <-> (d = 0 /\ st = 0) \/ (d = 1 /\ st = N (env w) - 1)).
Proof.
  intros Hd Hd01 HN Hst.
  assert (Hsame : set_monotonous_direction (Some d) w = w)
    by (destruct w; simpl in Hd; subst; reflexivity).
  unfold monotonous_policy, bind, gets, global, modify, ret. rewrite Hd.
  unfold ret, move. simpl.
  destruct Hd01 as [-> | ->]; simpl.
  - destruct (Z.eqb_spec st 0) as [-> | Hne].
    + exists 1. repeat split; simpl (_ =? _); cbv iota; try lia.
    + exists 0. rewrite Hsame. repeat split; simpl (_ =? _); cbv iota; try lia.
  - destruct (Z.eqb_spec st (N (env w) - 1)) as [-> | Hne].
    + exists 0. repeat split; simpl (_ =? _); cbv iota; try lia.
    + exists 1. rewrite Hsame. repeat split; simpl (_ =? _); cbv iota; try lia.
Qed.

(** Without a direction in its global (no [run_episode] has run), the
    monotonous policy raises [NameError]; with a direction other than
    [0] and [1] it returns [None], which [step] rejects. *)
Theorem monotonous_policy_without_direction (st : Z) (w : World) :
  (monotonous_direction w = None ->
   monotonous_policy st w = (Raise NameError, w)) /\
  (forall d, monotonous_direction w = Some d -> d <> 0 -> d <> 1 ->
             monotonous_policy st w = (Ok PyNone, w) /\
             forall e, step PyNone e
                       = (Raise (AssertionError invalid_action_msg), e)).
Proof.
  split.
  - intros Hd. unfold monotonous_policy, bind, gets, global. rewrite Hd.
    reflexivity.
  - intros d Hd H0 H1. split; [|intros e; reflexivity].
    unfold monotonous_policy, bind, gets, global. rewrite Hd. unfold ret.
    destruct (Z.eqb_spec d 0); [contradiction|].
    destruct (Z.eqb_spec d 1); [contradiction|]. reflexivity.
Qed.

(** Whatever the process state, the wildcard policy either returns [0]
    or [1], touching neither the environment, the [random] module nor
    the monotonous direction, or it raises [NameError] and changes
    nothing, which happens only after the first step of an episode with
    one of its globals unbound. *)
Theorem wildcard_policy_outcomes (st : Z) (w : World) :
  (exists a w',
      wildcard_policy st w = (Ok (PyInt a), w') /\ (a = 0 \/ a = 1) /\
      env w' = env w /\ global_random w' = global_random w /\
      monotonous_direction w' = monotonous_direction w) \/
  (wildcard_policy st w = (Raise NameError, w) /\
   steps_taken (env w) <> 0 /\
   (wildcard_origin w = None \/ wildcard_extent w = None \/
    wildcard_direction w = None)).
Proof.
  unfold wildcard_policy, bind, gets, global, modify, ret. simpl.
  destruct (Z.eqb_spec (steps_taken (env w)) 0) as [H0 | H0].
  - left. eexists. eexists. split; [reflexivity|]. repeat split. right.
    reflexivity.
  - destruct w as [e gr md [o|] wx wd]; simpl in *;
      [|right; repeat split; auto].
    destruct wd as [d|]; simpl; [|right; repeat split; auto].
    destruct wx as [x|]; simpl; [|right; repeat split; auto].
    left.
    set (t := Z.max 0 (Z.min (N e - 1) (o + d * x))).
    destruct (st =? t); simpl;
      [destruct (d =? 1) eqn:Hd; simpl|];
      destruct (st <? t); try destruct (st >? t); simpl;
      try rewrite Hd;
      try destruct (d =? 1);
      eexists; eexists; (split; [reflexivity|]); repeat split; auto.
Qed.

End Policies.

(** * Properties of the episode runner *)

Section Runner.

Context `{RS : RandomSource}.

(** [step] called on the shared environment object. *)
Lemma on_env_step (w : World) (a : pyval) (s g : Z) :
  in_0_1 a = true -> state (env w) = Some s -> goal_state (env w) = Some g ->
  on_env (step a) w
  = (fst (step a (env w)),
     set_env (moved (env w) (move a s (N (env w)))) w).
Proof.
  intros Ha Hs Hg. unfold on_env.
  rewrite (step_equation (env w) a s g Ha Hs Hg). reflexivity.
Qed.

(** The loop of [run_episode] under a policy that keeps the episode: it
    returns, the count it returns is the environment's [steps_taken],
    and it stops early only at the goal or at the step limit. *)
Lemma episode_loop_ends
    (Pre Post : World -> Prop) (p : policy) (max_steps : Z) :
  keeps_episode Pre Post p ->
  forall (todo : nat) (t st : Z) (total : float) (w : World),
    Pre w -> in_bounds (env w) -> steps_taken (env w) = t ->
    max_steps = t + Z.of_nat todo ->
    exists total' n w',
      episode_loop p max_steps todo t st total w = (Ok (total', n), w') /\
      steps_taken (env w') = n /\
      in_bounds (env w') /\
      N (env w') = N (env w) /\
      step_limit (env w') = step_limit (env w) /\
      goal_state (env w') = goal_state (env w) /\
      t <= n <= max_steps /\
      (todo <> O -> t < n /\ (n = t + 1 \/ n <= step_limit (env w))) /\
      (n < max_steps ->
       state (env w') = goal_state (env w') \/ step_limit (env w) <= n).
Proof.
  intros [Hask Hback].
  induction todo as [|todo IH]; intros t st total w HPre Hb Ht Hmax.
  - exists total, max_steps, w. simpl. unfold ret.
    repeat split; try lia; try assumption.
  - destruct (Hask st w HPre) as (a & w1 & Hpol & Ha & HPost & Hsame).
    destruct Hsame as (HN1 & Hl1 & Hs1 & Hg1 & Ht1).
    destruct Hb as (s & g & Hs & Hg & Hsb & Hgb).
    rewrite Hs in Hs1. rewrite Hg in Hg1.
    pose proof (left_or_right_accepted a Ha) as Hin.
    set (s' := move a s (N (env w))).
    assert (Hb' : 0 <= s' < N (env w)) by (apply move_in_range; exact Hsb).
    set (e2 := moved (env w1) s').
    assert (Hbounds : in_bounds e2).
    { exists s', g. unfold e2. simpl. rewrite HN1. repeat split; try lia.
      exact Hg1. }
    cbn [episode_loop]. unfold bind at 1. rewrite Hpol.
    unfold bind at 1. rewrite (on_env_step w1 a s g Hin Hs1 Hg1).
    rewrite (step_equation (env w1) a s g Hin Hs1 Hg1). cbv zeta.
    rewrite HN1, Hl1, Ht1. fold s'. fold e2. cbn [fst].
    destruct (Z.eqb_spec s' g) as [Hgoal | Hmiss].
    + eexists. exists (t + 1). eexists. unfold ret.
      split; [reflexivity|]. cbn [env set_env].
      repeat split; try lia; try assumption;
        try (unfold e2; simpl; congruence);
        try (unfold e2; simpl; lia).
      intros _. left. unfold e2. simpl. congruence.
    + rewrite Z.geb_leb.
      destruct (Z.leb_spec (step_limit (env w)) (steps_taken (env w) + 1))
        as [Hlim | Hlim].
      * eexists. exists (t + 1). eexists. unfold ret.
        split; [reflexivity|]. cbn [env set_env].
        repeat split; try lia; try assumption;
          try (unfold e2; simpl; congruence);
          try (unfold e2; simpl; lia).
      * destruct (IH (t + 1) s'
                     (total + shaped_reward (Z.abs (s - g)) (Z.abs (s' - g)))%float
                     (set_env e2 w1))
          as (total' & n & w' & Hloop & Hn & Hbn & HNn & Hln & Hgn
              & Hrange & Hmore & Hearly).
        -- apply Hback. exact HPost.
        -- exact Hbounds.
        -- unfold e2. simpl. lia.
        -- lia.
        -- exists total', n, w'. cbn [env set_env] in *.
           split; [exact Hloop|].
           assert (HNe : N e2 = N (env w)) by (unfold e2; simpl; congruence).
           assert (Hle : step_limit e2 = step_limit (env w))
             by (unfold e2; simpl; congruence).
           assert (Hge : goal_state e2 = goal_state (env w))
             by (unfold e2; simpl; congruence).
           rewrite Hle in Hearly, Hmore.
           repeat split; try lia; try congruence; try assumption.
Qed.

End Runner.

Section RunnerContracts.

Context `{RS : RandomSource}.

(** [run_episode] up to the start of its loop. *)
Lemma run_episode_unfold
    (fuel : nat) (p : policy) (max_steps : Z) (w : World)
    (s0 : Z) (e1 : GridWorld1D) :
  reset fuel (env w) = (Ok s0, e1) ->
  run_episode fuel p max_steps w
  = episode_loop p max_steps (Z.to_nat max_steps) 0 s0 0%float
                 (episode_start w e1).
Proof.
  intros Hreset. unfold run_episode. unfold bind at 1. unfold on_env.
  rewrite Hreset. rewrite direction_draw. reflexivity.
Qed.

(** The direction [run_episode] draws is [0] or [1]. *)
Lemma episode_start_direction (w : World) (e1 : GridWorld1D) :
  exists d, monotonous_direction (episode_start w e1) = Some d /\
            (d = 0 \/ d = 1).
Proof.
  pose proof (randbelow_range (global_random w) 2 ltac:(lia)) as Hr.
  eexists. split; [reflexivity|]. lia.
Qed.

(** An episode under a policy that keeps the episode. *)
Lemma run_episode_ends
    (Pre Post : World -> Prop) (p : policy)
    (fuel : nat) (max_steps : Z) (w : World) (s0 : Z) (e1 : GridWorld1D) :
  keeps_episode Pre Post p ->
  2 <= N (env w) ->
  reset fuel (env w) = (Ok s0, e1) ->
  Pre (episode_start w e1) ->
  1 <= max_steps ->
  exists total n w',
    run_episode fuel p max_steps w = (Ok (total, n), w') /\
    1 <= n <= max_steps /\
    (n = 1 \/ n <= step_limit (env w)) /\
    steps_taken (env w') = n /\
    (n < max_steps ->
     state (env w') = goal_state (env w') \/ step_limit (env w) <= n).
Proof.
  intros Hp HN Hreset HPre Hmax.
  pose proof (reset_cases fuel (env w) ltac:(lia)) as Hc.
  rewrite Hreset in Hc. destruct Hc as (g & r & Hne & Hs & Hg & He1).
  rewrite (run_episode_unfold fuel p max_steps w s0 e1 Hreset).
  destruct (episode_loop_ends Pre Post p max_steps Hp (Z.to_nat max_steps)
              0 s0 0%float (episode_start w e1) HPre)
    as (total & n & w' & Hloop & Hn & _ & _ & Hlim & _ & Hrange & Hmore & Hearly).
  - exists s0, g. subst e1. simpl. repeat split; lia.
  - subst e1. reflexivity.
  - lia.
  - assert (Hl : step_limit (env (episode_start w e1)) = step_limit (env w))
      by (subst e1; reflexivity).
    rewrite Hl in Hmore, Hearly.
    exists total, n, w'. split; [exact Hloop|].
    assert (Htodo : Z.to_nat max_steps <> O) by lia.
    specialize (Hmore Htodo). repeat split; try lia. exact Hearly.
Qed.

Lemma random_policy_keeps_episode :
  keeps_episode (fun _ => True) (fun _ => True) random_policy.
Proof.
  split; [|intros; exact I]. intros st w _.
  unfold random_policy, bind, on_env, env_randrange, randrange, ret. simpl.
  pose proof (randbelow_range (rng (env w)) 2 ltac:(lia)) as Hr.
  destruct (randbelow (rng (env w)) 2) as [a r]. simpl in Hr.
  eexists. eexists. split; [reflexivity|]. split; [|split; [exact I|]].
  - apply left_or_right_int. lia.
  - repeat split.
Qed.

(** The condition the monotonous policy runs under. *)
Lemma monotonous_policy_keeps_episode :
  keeps_episode
    (fun w => exists d, monotonous_direction w = Some d /\ (d = 0 \/ d = 1))
    (fun w => exists d, monotonous_direction w = Some d /\ (d = 0 \/ d = 1))
    monotonous_policy.
Proof.
  split; [|intros w e' H; exact H].
  intros st w (d & Hd & Hd01).
  assert (Hsame : set_monotonous_direction (Some d) w = w)
    by (destruct w; simpl in Hd; subst; reflexivity).
  unfold monotonous_policy, bind, gets, global, modify, ret. rewrite Hd.
  unfold ret. simpl.
  destruct Hd01 as [-> | ->]; simpl;
    [destruct (st =? 0) | destruct (st =? N (env w) - 1)];
    eexists; eexists; (split; [reflexivity|]);
    (split; [apply left_or_right_int; lia|]);
    (split; [eexists; split; [first [reflexivity | exact Hd]|lia]|]);
    repeat split.
Qed.

(** The condition the wildcard policy runs under: it is at the first
    step of an episode, or its globals hold a sweep memory. *)
Lemma wildcard_policy_keeps_episode :
  keeps_episode
    (fun w => steps_taken (env w) = 0 \/ exists m, sweep_of w = Some m)
    (fun w => exists m, sweep_of w = Some m)
    wildcard_policy.
Proof.
  split; [|intros w e' H; right; exact H].
  intros st w HPre.
  unfold wildcard_policy, bind, gets, global, modify, ret. simpl.
  destruct (Z.eqb_spec (steps_taken (env w)) 0) as [H0 | H0].
  - eexists. eexists. split; [reflexivity|].
    split; [right; reflexivity|]. split; [|repeat split].
    eexists. reflexivity.
  - destruct HPre as [H | [m Hm]]; [contradiction|].
    destruct (sweep_of_some w m Hm) as (Ho & Hx & Hd).
    destruct w as [e gr md wo wx wd]. simpl in *. subst wo wx wd.
    destruct m as [o x h]. simpl.
    set (t := Z.max 0 (Z.min (N e - 1) (o + SweepSpec.sign h * x))).
    destruct h; simpl; destruct (st =? t); simpl;
      destruct (st <? t); try destruct (st >? t); simpl;
      eexists; eexists; (split; [reflexivity|]);
      (split; [first [left; reflexivity | right; reflexivity]|]);
      (split; [eexists; reflexivity | repeat split]).
Qed.

End RunnerContracts.

Section ShippedPolicies.

Context `{RS : RandomSource}.

(** Under each of the three policies of the module, on a grid of size at
    least 2 and with [max_steps >= 1], an episode whose [reset] returned
    runs to its end without raising: it returns a step count [n]
    between 1 and [max_steps], at most [step_limit] unless it is 1, equal
    to the environment's [steps_taken]; and when it stops before
    [max_steps] the agent is on the goal or the step limit is reached. *)
Theorem shipped_policy_episode_ends
    (p : policy) (fuel : nat) (max_steps : Z) (w : World)
    (s0 : Z) (e1 : GridWorld1D) :
  p = random_policy \/ p = monotonous_policy \/ p = wildcard_policy ->
  2 <= N (env w) ->
  reset fuel (env w) = (Ok s0, e1) ->
  1 <= max_steps ->
  exists total n w',
    run_episode fuel p max_steps w = (Ok (total, n), w') /\
    1 <= n <= max_steps /\
    (n = 1 \/ n <= step_limit (env w)) /\
    steps_taken (env w') = n /\
    (n < max_steps ->
     state (env w') = goal_state (env w') \/ step_limit (env w) <= n).
Proof.
  intros Hp HN Hreset Hmax.
  destruct Hp as [-> | [-> | ->]].
  - apply (run_episode_ends _ _ _ fuel max_steps w s0 e1
             random_policy_keeps_episode HN Hreset I Hmax).
  - apply (run_episode_ends _ _ _ fuel max_steps w s0 e1
             monotonous_policy_keeps_episode HN Hreset
             (episode_start_direction w e1) Hmax).
  - apply (run_episode_ends _ _ _ fuel max_steps w s0 e1
             wildcard_policy_keeps_episode HN Hreset); [|exact Hmax].
    left.
    pose proof (reset_cases fuel (env w) ltac:(lia)) as Hc.
    rewrite Hreset in Hc. destruct Hc as (g & r & _ & _ & _ & ->).
    reflexivity.
Qed.

(** With [max_steps <= 0] the loop of [run_episode] is empty: after the
    [reset] and the direction draw it returns the return [0.0] and
    [max_steps] itself as the step count, a negative count included. *)
Theorem run_episode_no_steps
    (p : policy) (fuel : nat) (max_steps : Z) (w : World)
    (s0 : Z) (e1 : GridWorld1D) :
  reset fuel (env w) = (Ok s0, e1) ->
  max_steps <= 0 ->
  run_episode fuel p max_steps w
  = (Ok (0%float, max_steps), episode_start w e1).
Proof.
  intros Hreset Hmax.
  rewrite (run_episode_unfold fuel p max_steps w s0 e1 Hreset).
  replace (Z.to_nat max_steps) with O by lia. reflexivity.
Qed.

(** Episodes of the random and of the wildcard policy are reproducible
    from the environment's seed: two processes that agree on the
    environment and on the wildcard globals, whatever the state of the
    [random] module's generator, run the same sequence of episodes and
    end with the same environment. *)
Theorem seeded_policy_episodes_reproducible
    (p : policy) (fuel : nat) (max_steps : Z) (count : nat) (w1 w2 : World) :
  p = random_policy \/ p = wildcard_policy ->
  same_seeded_state w1 w2 ->
  fst (run_episodes fuel p max_steps count w1)
  = fst (run_episodes fuel p max_steps count w2) /\
  env (snd (run_episodes fuel p max_steps count w1))
  = env (snd (run_episodes fuel p max_steps count w2)).
Proof.
  intros Hp Hsame.
  assert (Hdriven : forall st, seed_driven (p st)).
  { destruct Hp as [-> | ->];
      [exact random_policy_seed_driven | exact wildcard_policy_seed_driven]. }
  destruct (run_episodes_seed_driven fuel p max_steps count Hdriven w1 w2 Hsame)
    as [Hres [Henv _]].
  split; assumption.
Qed.

End ShippedPolicies.

Section MonotonousSweep.

Context `{RS : RandomSource}.

(** The action of the monotonous policy, in closed form. *)
Lemma monotonous_policy_run (st d : Z) (w : World) :
  monotonous_direction w = Some d -> d = 0 \/ d = 1 ->
  monotonous_policy st w
  = (let a := if d =? 0 then (if st =? 0 then 1 else 0)
              else (if st =? N (env w) - 1 then 0 else 1) in
     (Ok (PyInt a), set_monotonous_direction (Some a) w)).
Proof.
  intros Hd Hd01.
  assert (Hsame : set_monotonous_direction (Some d) w = w)
    by (destruct w; simpl in Hd; subst; reflexivity).
  unfold monotonous_policy, bind, gets, global, modify, ret. rewrite Hd.
  unfold ret. simpl.
  destruct Hd01 as [-> | ->]; simpl;
    [destruct (st =? 0) | destruct (st =? N (env w) - 1)];
    try reflexivity; rewrite Hsame; reflexivity.
Qed.

(** One move of the sweep shortens what is left of it by one, and lands
    on the goal exactly when one move was left. *)
Lemma sweep_length_step (d st g n : Z) (k : nat) :
  d = 0 \/ d = 1 -> 2 <= n -> 0 <= st < n -> 0 <= g < n -> st <> g ->
  sweep_length d st g n = Z.of_nat (S k) ->
  let a := if d =? 0 then (if st =? 0 then 1 else 0)
           else (if st =? n - 1 then 0 else 1) in
  let s' := move (PyInt a) st n in
  (a = 0 \/ a = 1) /\ 0 <= s' < n /\
  (s' = g <-> k = O) /\
  (s' <> g -> sweep_length a s' g n = Z.of_nat k).
Proof.
  intros Hd Hn Hst Hg Hne Hlen. cbv zeta.
  unfold sweep_length, move in *. simpl py_eq_int. revert Hlen.
  destruct Hd as [-> | ->]; simpl (_ =? _); cbv iota;
    [destruct (Z.eqb_spec st 0) as [-> | H0]
    |destruct (Z.eqb_spec st (n - 1)) as [-> | H0]];
    simpl (_ =? _); cbv iota;
    repeat match goal with
           | |- context [?x <? ?y] => destruct (Z.ltb_spec x y)
           end;
    intros Hlen; repeat split; lia.
Qed.

(** The sweep is at least one and at most [2 n - 3] moves long. *)
Lemma sweep_length_bounds (d st g n : Z) :
  d = 0 \/ d = 1 -> 0 <= st < n -> 0 <= g < n -> st <> g ->
  1 <= sweep_length d st g n <= 2 * n - 3.
Proof.
  intros Hd Hst Hg Hne. unfold sweep_length.
  destruct Hd as [-> | ->]; simpl (_ =? _); cbv iota.
  - destruct (Z.ltb_spec g st); lia.
  - destruct (Z.ltb_spec st g); lia.
Qed.

(** The loop of [run_episode] under the monotonous policy, with enough
    iterations and step limit left for the sweep: it stops on the goal
    after exactly [sweep_length] steps. *)
Lemma monotonous_loop_reaches (max_steps : Z) (k : nat) :
  forall (todo : nat) (t st : Z) (total : float) (w : World) (d g : Z),
    monotonous_direction w = Some d -> d = 0 \/ d = 1 ->
    2 <= N (env w) ->
    state (env w) = Some st -> goal_state (env w) = Some g ->
    0 <= st < N (env w) -> 0 <= g < N (env w) -> st <> g ->
    sweep_length d st g (N (env w)) = Z.of_nat (S k) ->
    (S k <= todo)%nat ->
    steps_taken (env w) + Z.of_nat (S k) <= step_limit (env w) ->
    exists total' w',
      episode_loop monotonous_policy max_steps todo t st total w
      = (Ok (total', t + Z.of_nat (S k)), w') /\
      state (env w') = Some g /\ goal_state (env w') = Some g /\
      steps_taken (env w') = steps_taken (env w) + Z.of_nat (S k).
Proof.
  induction k as [|k IH];
    intros todo t st total w d g Hd Hd01 HN Hs Hg Hsb Hgb Hne Hlen Htodo Hlim;
    (destruct todo as [|todo]; [lia|]);
    destruct (sweep_length_step d st g (N (env w)) _ Hd01 HN Hsb Hgb Hne Hlen)
      as (Ha01 & Hb' & Hhit & Hrest);
    pose proof (monotonous_policy_run st d w Hd Hd01) as Hpol;
    cbv zeta in Hpol;
    set (a := if d =? 0 then (if st =? 0 then 1 else 0)
              else (if st =? N (env w) - 1 then 0 else 1)) in *;
    set (s' := move (PyInt a) st (N (env w))) in *;
    set (w1 := set_monotonous_direction (Some a) w) in *;
    assert (Hin : in_0_1 (PyInt a) = true)
      by (destruct Ha01 as [-> | ->]; reflexivity);
    cbn [episode_loop]; unfold bind at 1; rewrite Hpol;
    unfold bind at 1;
    rewrite (on_env_step w1 (PyInt a) st g Hin Hs Hg);
    rewrite (step_equation (env w1) (PyInt a) st g Hin Hs Hg); cbv zeta;
    change (env w1) with (env w); fold s'; cbn [fst].
  - assert (Heq : s' = g) by (apply Hhit; reflexivity).
    rewrite Heq, Z.eqb_refl. unfold ret.
    eexists. eexists. split; [reflexivity|]. cbn [env set_env].
    simpl. repeat split; try assumption.
  - assert (Hmiss : s' <> g) by (intros H; apply Hhit in H; discriminate H).
    destruct (Z.eqb_spec s' g) as [H | _]; [contradiction|].
    replace (steps_taken (env w) + 1 >=? step_limit (env w)) with false
      by (symmetry; rewrite Z.geb_leb; apply Z.leb_gt; lia).
    destruct (IH todo (t + 1) s'
                 (total + shaped_reward (Z.abs (st - g)) (Z.abs (s' - g)))%float
                 (set_env (moved (env w) s') w1) a g)
      as (total' & w' & Hloop & Hst' & Hg' & Htk');
      try assumption; try reflexivity; try (simpl; lia).
    exists total', w'. rewrite Hloop.
    split; [f_equal; f_equal; f_equal; lia|].
    split; [exact Hst'|]. split; [exact Hg'|].
    rewrite Htk'. cbn [env set_env moved steps_taken set_steps_taken]. lia.
Qed.

(** The monotonous policy always finds the goal: on a grid of size
    [N >= 2], with [step_limit] and [max_steps] at least [2 N - 3], an
    episode whose [reset] returned ends with the agent on the goal, after
    exactly as many steps as the sweep from the start in the drawn
    direction takes, which is at most [2 N - 3]. *)
Theorem monotonous_episode_reaches_goal
    (fuel : nat) (max_steps : Z) (w : World) (s0 : Z) (e1 : GridWorld1D) :
  2 <= N (env w) ->
  reset fuel (env w) = (Ok s0, e1) ->
  2 * N (env w) - 3 <= step_limit (env w) ->
  2 * N (env w) - 3 <= max_steps ->
  exists total n w' g,
    run_episode fuel monotonous_policy max_steps w = (Ok (total, n), w') /\
    goal_state e1 = Some g /\
    n = sweep_length (fst (randbelow (global_random w) 2)) s0 g (N (env w)) /\
    1 <= n <= 2 * N (env w) - 3 /\
    state (env w') = Some g /\ goal_state (env w') = Some g /\
    steps_taken (env w') = n.
Proof.
  intros HN Hreset Hlimit Hmax.
  pose proof (reset_cases fuel (env w) ltac:(lia)) as Hc.
  rewrite Hreset in Hc. destruct Hc as (g & r & Hne & Hs & Hg & He1).
  rewrite (run_episode_unfold fuel _ max_steps w s0 e1 Hreset).
  pose proof (randbelow_range (global_random w) 2 ltac:(lia)) as Hr.
  set (d := fst (randbelow (global_random w) 2)) in *.
  assert (Hd01 : d = 0 \/ d = 1) by lia.
  pose proof (sweep_length_bounds d s0 g (N (env w)) Hd01 Hs Hg Hne) as Hlen.
  destruct (Z.to_nat (sweep_length d s0 g (N (env w)))) as [|k] eqn:Hk; [lia|].
  destruct (monotonous_loop_reaches max_steps k (Z.to_nat max_steps) 0 s0
              0%float (episode_start w e1) d g)
    as (total & w' & Hloop & Hst & Hgl & Htk);
    try (subst e1; simpl; first [reflexivity | lia | assumption]).
  assert (H0 : steps_taken (env (episode_start w e1)) = 0)
    by (subst e1; reflexivity).
  assert (Hgoal : goal_state e1 = Some g) by (subst e1; reflexivity).
  rewrite H0 in Htk.
  exists total, (0 + Z.of_nat (S k)), w', g.
  repeat split; try assumption; lia.
Qed.

End MonotonousSweep.

(** * The further properties at concrete inputs *)

(** A [step] to the right on a freshly constructed environment. *)
Lemma step_before_reset_witness :
  step (PyInt 1) (Scripted.fresh 10 100 [])
  = (Raise TypeError, Scripted.fresh 10 100 []).
Proof.
  apply (step_before_reset (Scripted.fresh 10 100 []) (PyInt 1)).
  - reflexivity.
  - right. reflexivity.
Defined.

(** Position 5, goal 8, a step to the right with the limit far away. *)
Lemma step_done_iff_witness :
  exists reward done,
    step (PyInt 1) (Scripted.episode 10 100 [] 5 8 0)
    = (Ok (move (PyInt 1) 5 10, reward, done),
       moved (Scripted.episode 10 100 [] 5 8 0) (move (PyInt 1) 5 10)) /\
    (done = true <-> move (PyInt 1) 5 10 = 8 \/ 100 <= 0 + 1) /\
    (reward = 10%float <-> move (PyInt 1) 5 10 = 8).
Proof.
  apply (step_done_iff (Scripted.episode 10 100 [] 5 8 0) (PyInt 1) 5 8).
  - right. reflexivity.
  - reflexivity.
  - reflexivity.
Defined.

(** Pushing right at the right wall, position 9 of 10. *)
Lemma step_moves_one_cell_witness :
  exists s' reward done e',
    step (PyInt 1) (Scripted.episode 10 100 [] 9 2 4)
    = (Ok (s', reward, done), e') /\
    state e' = Some s' /\
    Z.abs (s' - 9) <= 1 /\
    (s' = 9 <-> (py_eq_int (PyInt 1) 0 = true /\ 9 = 0) \/
                (py_eq_int (PyInt 1) 0 = false /\ 9 = 10 - 1)) /\
    steps_taken e' = 4 + 1 /\
    goal_state e' = Some 2 /\ N e' = 10 /\
    step_limit e' = 100 /\ rng e' = Scripted.mkGen [] 0.
Proof.
  apply (step_moves_one_cell (Scripted.episode 10 100 [] 9 2 4) (PyInt 1) 9 2).
  - right. reflexivity.
  - reflexivity.
  - reflexivity.
  - simpl. lia.
Defined.

(** From 5 to the goal 8 in three steps. *)
Lemma walk_to_goal_witness :
  exists outs e',
    step_seq (repeat (toward 5 8) 3) (Scripted.episode 10 100 [] 5 8 0)
    = (Ok outs, e') /\
    List.length outs = 3%nat /\
    last outs (0, 0%float, false) = (8, 10%float, true) /\
    state e' = Some 8 /\
    steps_taken e' = 0 + Z.of_nat 3.
Proof.
  apply (walk_to_goal 2 (Scripted.episode 10 100 [] 5 8 0) 5 8).
  - reflexivity.
  - reflexivity.
  - simpl. lia.
  - simpl. lia.
  - reflexivity.
Defined.

(** A [reset] on a fresh environment and on one in mid-episode with the
    same generator. *)
Lemma reset_forgets_episode_witness :
  reset 3 (Scripted.episode 10 100 [8; 5] 3 7 42)
  = (Ok 5, snd (reset 3 (Scripted.fresh 10 100 [8; 5]))).
Proof.
  apply (reset_forgets_episode 3 (Scripted.fresh 10 100 [8; 5])
           (Scripted.episode 10 100 [8; 5] 3 7 42)).
  - repeat split.
  - reflexivity.
Defined.

(** Heading left at the left wall: the policy turns and moves right. *)
Lemma monotonous_policy_moves_witness :
  exists a,
    monotonous_policy 0
      (mkWorld (Scripted.episode 10 100 [] 0 8 1) (Scripted.mkGen [] 0)
               (Some 0) None None None)
    = (Ok (PyInt a),
       set_monotonous_direction (Some a)
         (mkWorld (Scripted.episode 10 100 [] 0 8 1) (Scripted.mkGen [] 0)
                  (Some 0) None None None)) /\
    (a = 0 \/ a = 1) /\
    move (PyInt a) 0 10 <> 0 /\
    (a <> 0 <-> (0 = 0 /\ 0 = 0) \/ (0 = 1 /\ 0 = 10 - 1)).
Proof.
  apply (monotonous_policy_moves 0 0
           (mkWorld (Scripted.episode 10 100 [] 0 8 1) (Scripted.mkGen [] 0)
                    (Some 0) None None None)).
  - reflexivity.
  - left. reflexivity.
  - simpl. lia.
  - simpl. lia.
Defined.

(** The monotonous policy in a process where no episode has run, and
    with a direction that is neither [0] nor [1]. *)
Lemma monotonous_policy_without_direction_witness :
  monotonous_policy 3 (Scripted.process (Scripted.episode 10 100 [] 3 8 0) [])
  = (Raise NameError, Scripted.process (Scripted.episode 10 100 [] 3 8 0) []) /\
  monotonous_policy 3
    (mkWorld (Scripted.episode 10 100 [] 3 8 0) (Scripted.mkGen [] 0)
             (Some 2) None None None)
  = (Ok PyNone,
     mkWorld (Scripted.episode 10 100 [] 3 8 0) (Scripted.mkGen [] 0)
             (Some 2) None None None).
Proof.
  split.
  - apply (proj1 (monotonous_policy_without_direction 3
                    (Scripted.process (Scripted.episode 10 100 [] 3 8 0) []))).
    reflexivity.
  - apply (proj2 (monotonous_policy_without_direction 3
                    (mkWorld (Scripted.episode 10 100 [] 3 8 0)
                             (Scripted.mkGen [] 0) (Some 2) None None None))
                 2).
    + reflexivity.
    + discriminate.
    + discriminate.
Defined.

(** An episode of the wildcard policy on ten cells with step limit 100,
    the generator drawing goal 1 and start 3. *)
Lemma shipped_policy_episode_ends_witness :
  exists total n w',
    run_episode 100 wildcard_policy 100
      (Scripted.process (Scripted.fresh 10 100 [1; 3]) [0])
    = (Ok (total, n), w') /\
    1 <= n <= 100 /\
    (n = 1 \/ n <= 100) /\
    steps_taken (env w') = n /\
    (n < 100 -> state (env w') = goal_state (env w') \/ 100 <= n).
Proof.
  apply (shipped_policy_episode_ends wildcard_policy 100 100
           (Scripted.process (Scripted.fresh 10 100 [1; 3]) [0]) 3
           (Scripted.episode 10 100 [] 3 1 0)).
  - right. right. reflexivity.
  - simpl. lia.
  - reflexivity.
  - lia.
Defined.

(** [run_episode] with [max_steps = 0]. *)
Lemma run_episode_no_steps_witness :
  run_episode 100 random_policy 0 (Scripted.process (Scripted.fresh 10 100 [1; 3]) [0])
  = (Ok (0%float, 0),
     episode_start (Scripted.process (Scripted.fresh 10 100 [1; 3]) [0])
                   (Scripted.episode 10 100 [] 3 1 0)).
Proof.
  apply (run_episode_no_steps random_policy 100 0
           (Scripted.process (Scripted.fresh 10 100 [1; 3]) [0]) 3
           (Scripted.episode 10 100 [] 3 1 0)).
  - reflexivity.
  - lia.
Defined.

(** Two processes with the same environment of ten cells whose [random]
    module generators differ, running the random policy. *)
Lemma seeded_policy_episodes_reproducible_witness :
  fst (run_episodes 100 random_policy 100 2
         (Scripted.process (Scripted.fresh 10 100 [1; 3]) [0]))
  = fst (run_episodes 100 random_policy 100 2
           (Scripted.process (Scripted.fresh 10 100 [1; 3]) [1])) /\
  env (snd (run_episodes 100 random_policy 100 2
              (Scripted.process (Scripted.fresh 10 100 [1; 3]) [0])))
  = env (snd (run_episodes 100 random_policy 100 2
                (Scripted.process (Scripted.fresh 10 100 [1; 3]) [1]))).
Proof.
  apply (seeded_policy_episodes_reproducible random_policy 100 100 2
           (Scripted.process (Scripted.fresh 10 100 [1; 3]) [0])
           (Scripted.process (Scripted.fresh 10 100 [1; 3]) [1])).
  - left. reflexivity.
  - repeat split.
Defined.

(** An episode of the monotonous policy on ten cells with step limit
    100, the generator drawing goal 1 and start 3, with the direction
    draw 1 (right). *)
Lemma monotonous_episode_reaches_goal_witness :
  exists total n w' g,
    run_episode 100 monotonous_policy 100
      (Scripted.process (Scripted.fresh 10 100 [1; 3]) [1])
    = (Ok (total, n), w') /\
    goal_state (Scripted.episode 10 100 [] 3 1 0) = Some g /\
    n = sweep_length 1 3 g 10 /\
    1 <= n <= 2 * 10 - 3 /\
    state (env w') = Some g /\ goal_state (env w') = Some g /\
    steps_taken (env w') = n.
Proof.
  apply (monotonous_episode_reaches_goal 100 100
           (Scripted.process (Scripted.fresh 10 100 [1; 3]) [1]) 3
           (Scripted.episode 10 100 [] 3 1 0)).
  - simpl. lia.
  - reflexivity.
  - simpl. lia.
  - simpl. lia.
Defined.

(** * The expanding sweep finds the goal *)

Section WildcardSweep.

Context `{RS : RandomSource}.

(** The wildcard policy after the first step, in closed form. *)
Lemma wildcard_policy_run (st o x d : Z) (w : World) :
  steps_taken (env w) <> 0 ->
  wildcard_origin w = Some o -> wildcard_extent w = Some x ->
  wildcard_direction w = Some d ->
  wildcard_policy st w
  = (let '(a, x', d') := wild_next (N (env w)) o x d st in
     (Ok (PyInt a),
      mkWorld (env w) (global_random w) (monotonous_direction w)
              (Some o) (Some x') (Some d'))).
Proof.
  intros Htk Ho Hx Hd.
  unfold wildcard_policy. unfold bind at 1. unfold gets at 1.
  destruct (Z.eqb_spec (steps_taken (env w)) 0) as [H0 | _]; [contradiction|].
  destruct w as [e gr md wo wx wd]. simpl in *. subst wo wx wd.
  unfold wild_next, wild_target, bind, gets, global, modify, ret. simpl.
  set (t := Z.max 0 (Z.min (N e - 1) (o + d * x))).
  rewrite Z.gtb_ltb.
  destruct (Z.eqb_spec st t) as [Heq | Hne]; simpl.
  - destruct (d =? 1); simpl;
      destruct (Z.ltb_spec st t); destruct (Z.ltb_spec t st);
      try lia; reflexivity.
  - destruct (Z.ltb_spec st t); destruct (Z.ltb_spec t st);
      try lia; reflexivity.
Qed.

End WildcardSweep.

Section WildcardBudget.

Context `{RS : RandomSource}.

Lemma wild_target_right (n o x : Z) : wild_target n o x 1 = wild_hi n o x.
Proof.
  unfold wild_target, wild_hi. replace (o + 1 * x) with (o + x) by lia.
  reflexivity.
Qed.

Lemma wild_target_left (n o x : Z) : wild_target n o x (-1) = wild_lo n o x.
Proof.
  unfold wild_target, wild_lo. replace (o + -1 * x) with (o - x) by lia.
  reflexivity.
Qed.

(** How the ends of successive sweeps lie. *)
Lemma wild_ends (n o x : Z) :
  2 <= n -> 0 <= o < n -> 1 <= x ->
  0 <= wild_lo n o x <= wild_lo n o (x - 1) /\
  wild_lo n o (x - 1) <= o <= wild_hi n o (x - 1) /\
  wild_hi n o (x - 1) <= wild_hi n o x <= wild_hi n o (x + 1) /\
  wild_hi n o (x + 1) <= n - 1 /\
  wild_lo n o x + 1 <= wild_hi n o x /\
  wild_lo n o x + 1 <= wild_hi n o (x + 1) /\
  (wild_lo n o x = wild_lo n o (x - 1) -> wild_lo n o x = 0) /\
  (wild_hi n o x = wild_hi n o (x - 1) -> wild_hi n o x = n - 1) /\
  (wild_hi n o (x + 1) = wild_hi n o x -> wild_hi n o x = n - 1) /\
  (0 < wild_lo n o x \/ wild_hi n o x < n - 1 -> x <= n - 2).
Proof.
  intros Hn Ho Hx. unfold wild_lo, wild_hi. lia.
Qed.

Lemma spent_expand (q w w' : Z) :
  0 <= w -> w + 1 <= w' -> q <= w * w + w -> q + w' <= w' * w'.
Proof. intros. nia. Qed.

Lemma spent_below (q w A : Z) :
  0 <= w <= A - 1 -> q <= w * w + w -> q + 1 <= A * A.
Proof. intros. nia. Qed.

Lemma spent_square (q w A : Z) :
  0 <= w <= A -> q <= w * w -> q <= A * A.
Proof. intros. nia. Qed.

Lemma wild_step (n o x d pos g q : Z) :
  2 <= n -> wild_inv n o x d pos g -> wild_spent n o x d q ->
  let '(a, x', d') := wild_next n o x d pos in
  let pos' := move (PyInt a) pos n in
  let q' := wild_account n o x d pos q in
  (a = 0 \/ a = 1) /\
  1 <= wild_budget n o x d pos q /\
  (pos' = g \/
   (wild_inv n o x' d' pos' g /\
    wild_spent n o x' d' q' /\
    wild_budget n o x' d' pos' q' <= wild_budget n o x d pos q - 1)).
Proof.
  intros Hn (Hx & Ho & Hg & Hpos & Hd) (Hq & Hsp).
  pose proof (wild_ends n o x Hn Ho ltac:(lia)) as E.
  unfold wild_next, wild_account, wild_budget, wild_spent, wild_inv,
    wild_width, wild_stalled in *.
  destruct Hd as [(-> & Hrange & Hgoal) | (-> & Hrange & Hgoal)];
    change (1 =? 1) with true in *; change (-1 =? 1) with false in *;
    cbv beta iota in *;
    rewrite ?wild_target_right, ?wild_target_left in *;
    [destruct (Z.eqb_spec pos (wild_hi n o x)) as [Heq | Hne];
       [|destruct (Z.ltb_spec pos (wild_hi n o x)) as [Hlt | Hge]; [|lia]]
    |destruct (Z.eqb_spec pos (wild_lo n o x)) as [Heq | Hne];
       [|destruct (Z.ltb_spec pos (wild_lo n o x)) as [Hlt | Hge]; [lia|]]];
    cbv beta iota zeta;
    change (1 =? 1) with true; change (-1 =? 1) with false;
    cbv beta iota;
    rewrite ?wild_target_right, ?wild_target_left;
    unfold move;
    change (py_eq_int (PyInt 0) 0) with true;
    change (py_eq_int (PyInt 1) 0) with false;
    cbv beta iota;
    replace (x + 1 - 1) with x by lia;
    set (H := wild_hi n o x) in *; set (Hm := wild_hi n o (x - 1)) in *;
    set (Hp := wild_hi n o (x + 1)) in *;
    set (L := wild_lo n o x) in *; set (Lm := wild_lo n o (x - 1)) in *;
    clearbody H Hm Hp L Lm.
  - subst pos.
    assert (K1 : q + 1 <= (n - 1) * (n - 1)).
    { apply (spent_below q (H - Lm)); [lia|].
      destruct Hsp as [Hs | [_ Hs]]; lia. }
    assert (K2 : q + (H - L) <= (H - L) * (H - L) \/
                 L = Lm /\ q + (H - L) <= (H - L) * (H - L) + (H - L)).
    { destruct (Z.eq_dec L Lm) as [Hsame | Hgrow].
      - right. split; [exact Hsame|]. subst L.
        destruct Hsp as [Hs | [Hst Hs]]; [lia | exfalso; lia].
      - left. apply (spent_expand q (H - Lm)); [lia | lia |].
        destruct Hsp as [Hs | [_ Hs]]; lia. }
    split; [left; reflexivity|]. split; [lia|].
    destruct (Z.eq_dec (Z.max (H - 1) 0) g) as [Hhit | Hmiss];
      [left; exact Hhit | right].
    split; [lia|]. split; [split; [lia | exact K2]|]. lia.
  - assert (K1 : q <= (n - 1) * (n - 1)).
    { destruct Hsp as [Hs | [Hst Hs]].
      - apply (spent_square q (H - Lm)); [lia | exact Hs].
      - assert (q + 1 <= (n - 1) * (n - 1)); [|lia].
        apply (spent_below q (H - Lm)); [lia | exact Hs]. }
    split; [right; reflexivity|]. split; [lia|].
    destruct (Z.eq_dec (Z.min (pos + 1) (n - 1)) g) as [Hhit | Hmiss];
      [left; exact Hhit | right].
    split; [lia|]. split; [split; [lia | exact Hsp]|]. lia.
  - subst pos.
    assert (K1 : q + 1 <= (n - 1) * (n - 1)).
    { apply (spent_below q (H - L)); [lia|].
      destruct Hsp as [Hs | [_ Hs]]; lia. }
    assert (K2 : q + (Hp - L) <= (Hp - L) * (Hp - L) \/
                 Hp = H /\ q + (Hp - L) <= (Hp - L) * (Hp - L) + (Hp - L)).
    { destruct (Z.eq_dec Hp H) as [Hsame | Hgrow].
      - right. split; [exact Hsame|]. subst Hp.
        destruct Hsp as [Hs | [Hst Hs]]; [lia | exfalso; lia].
      - left. apply (spent_expand q (H - L)); [lia | lia |].
        destruct Hsp as [Hs | [_ Hs]]; lia. }
    split; [right; reflexivity|]. split; [lia|].
    destruct (Z.eq_dec (Z.min (L + 1) (n - 1)) g) as [Hhit | Hmiss];
      [left; exact Hhit | right].
    split; [lia|]. split; [split; [lia | exact K2]|]. lia.
  - assert (K1 : q <= (n - 1) * (n - 1)).
    { destruct Hsp as [Hs | [Hst Hs]].
      - apply (spent_square q (H - L)); [lia | exact Hs].
      - assert (q + 1 <= (n - 1) * (n - 1)); [|lia].
        apply (spent_below q (H - L)); [lia | exact Hs]. }
    split; [left; reflexivity|]. split; [lia|].
    destruct (Z.eq_dec (Z.max (pos - 1) 0) g) as [Hhit | Hmiss];
      [left; exact Hhit | right].
    split; [lia|]. split; [split; [lia | exact Hsp]|]. lia.
Qed.

(** The wildcard policy at the first step of an episode. *)
Lemma wildcard_policy_first (st : Z) (w : World) :
  steps_taken (env w) = 0 ->
  wildcard_policy st w
  = (Ok (PyInt 1),
     mkWorld (env w) (global_random w) (monotonous_direction w)
             (Some st) (Some 1) (Some 1)).
Proof.
  intros H0. unfold wildcard_policy, bind, gets, modify, ret. simpl.
  rewrite H0. reflexivity.
Qed.

(** The loop of [run_episode] under the wildcard policy, past the first
    step, with enough iterations and step limit left for the budget of
    the sweep: it stops on the goal within the budget. *)
Lemma wildcard_loop_reaches (max_steps : Z) (k : nat) :
  forall (todo : nat) (t : Z) (total : float) (w : World)
         (o x d pos g q : Z),
    2 <= N (env w) ->
    wildcard_origin w = Some o -> wildcard_extent w = Some x ->
    wildcard_direction w = Some d ->
    state (env w) = Some pos -> goal_state (env w) = Some g ->
    0 < steps_taken (env w) ->
    wild_inv (N (env w)) o x d pos g ->
    wild_spent (N (env w)) o x d q ->
    wild_budget (N (env w)) o x d pos q <= Z.of_nat k ->
    (k <= todo)%nat ->
    steps_taken (env w) + Z.of_nat k <= step_limit (env w) ->
    exists total' m w',
      episode_loop wildcard_policy max_steps todo t pos total w
      = (Ok (total', t + m), w') /\
      1 <= m <= Z.of_nat k /\
      state (env w') = Some g /\ goal_state (env w') = Some g /\
      steps_taken (env w') = steps_taken (env w) + m.
Proof.
  induction k as [|k IH];
    intros todo t total w o x d pos g q HN Ho Hx Hd Hs Hg Htk Hinv Hsp Hbud
           Htodo Hlim;
    pose proof (wild_step (N (env w)) o x d pos g q HN Hinv Hsp) as Hstep;
    pose proof (wildcard_policy_run pos o x d w ltac:(lia) Ho Hx Hd) as Hpol;
    destruct (wild_next (N (env w)) o x d pos) as [[a x'] d'];
    cbv zeta in Hstep; destruct Hstep as (Ha & Hpos1 & Hnext); [lia|].
  destruct todo as [|todo]; [lia|].
  set (s' := move (PyInt a) pos (N (env w))) in *.
  set (q' := wild_account (N (env w)) o x d pos q) in *.
  set (w1 := mkWorld (env w) (global_random w) (monotonous_direction w)
                     (Some o) (Some x') (Some d')) in *.
  assert (Hin : in_0_1 (PyInt a) = true)
    by (destruct Ha as [-> | ->]; reflexivity).
  cbn [episode_loop]. unfold bind at 1. rewrite Hpol.
  unfold bind at 1.
  rewrite (on_env_step w1 (PyInt a) pos g Hin Hs Hg).
  rewrite (step_equation (env w1) (PyInt a) pos g Hin Hs Hg). cbv zeta.
  change (env w1) with (env w). fold s'. cbn [fst].
  destruct (Z.eqb_spec s' g) as [Hhit | Hmiss].
  - unfold ret. eexists. exists 1. eexists.
    split; [reflexivity|].
    cbn [env set_env moved state goal_state steps_taken
         set_steps_taken set_state].
    rewrite Hhit. repeat split; try assumption; lia.
  - destruct Hnext as [Hhit | (Hinv' & Hsp' & Hbud')]; [contradiction|].
    pose proof (wild_step (N (env w)) o x' d' s' g q' HN Hinv' Hsp')
      as Hstep'.
    destruct (wild_next (N (env w)) o x' d' s') as [[a2 x2] d2].
    cbv zeta in Hstep'. destruct Hstep' as (_ & Hpos2 & _).
    replace (steps_taken (env w) + 1 >=? step_limit (env w)) with false
      by (symmetry; rewrite Z.geb_leb; apply Z.leb_gt; lia).
    destruct (IH todo (t + 1)
                 (total + shaped_reward (Z.abs (pos - g)) (Z.abs (s' - g)))%float
                 (set_env (moved (env w) s') w1) o x' d' s' g q')
      as (total' & m & w' & Hloop & Hm & Hst' & Hg' & Htk');
      try assumption; try reflexivity;
      cbn [env set_env moved N steps_taken step_limit
           set_steps_taken set_state]; try lia.
    exists total', (1 + m), w'. rewrite Hloop.
    split; [f_equal; f_equal; f_equal; lia|].
    split; [lia|]. split; [exact Hst'|]. split; [exact Hg'|].
    rewrite Htk'. cbn [env set_env moved steps_taken set_steps_taken]. lia.
Qed.

(** The wildcard policy always finds the goal: on a grid of size
    [N >= 2], with [step_limit] and [max_steps] at least [(N-1)^2 + 1],
    an episode whose [reset] returned ends with the agent on the goal
    after at most [(N-1)^2 + 1] steps. *)
Theorem wildcard_episode_reaches_goal
    (fuel : nat) (max_steps : Z) (w : World) (s0 : Z) (e1 : GridWorld1D) :
  2 <= N (env w) ->
  reset fuel (env w) = (Ok s0, e1) ->
  (N (env w) - 1) * (N (env w) - 1) + 1 <= step_limit (env w) ->
  (N (env w) - 1) * (N (env w) - 1) + 1 <= max_steps ->
  exists total n w' g,
    run_episode fuel wildcard_policy max_steps w = (Ok (total, n), w') /\
    goal_state e1 = Some g /\
    1 <= n <= (N (env w) - 1) * (N (env w) - 1) + 1 /\
    state (env w') = Some g /\ goal_state (env w') = Some g /\
    steps_taken (env w') = n.
Proof.
  intros HN Hreset Hlimit Hmax.
  pose proof (reset_cases fuel (env w) ltac:(lia)) as Hc.
  rewrite Hreset in Hc. destruct Hc as (g & r & Hne & Hs & Hg & He1).
  rewrite (run_episode_unfold fuel _ max_steps w s0 e1 Hreset).
  set (n := N (env w)) in *.
  set (w0 := episode_start w e1).
  assert (Hn0 : N (env w0) = n) by (subst e1; reflexivity).
  assert (Hl0 : step_limit (env w0) = step_limit (env w))
    by (subst e1; reflexivity).
  assert (Hs0 : state (env w0) = Some s0) by (subst e1; reflexivity).
  assert (Hg0 : goal_state (env w0) = Some g) by (subst e1; reflexivity).
  assert (Ht0 : steps_taken (env w0) = 0) by (subst e1; reflexivity).
  assert (Hge1 : goal_state e1 = Some g) by (subst e1; reflexivity).
  assert (Hsq : 1 <= (n - 1) * (n - 1)) by nia.
  destruct (Z.to_nat max_steps) as [|todo] eqn:Htodo; [lia|].
  set (w1 := mkWorld (env w0) (global_random w0) (monotonous_direction w0)
                     (Some s0) (Some 1) (Some 1)).
  set (s1 := move (PyInt 1) s0 n).
  cbn [episode_loop]. unfold bind at 1.
  rewrite (wildcard_policy_first s0 w0 Ht0). fold w1.
  unfold bind at 1.
  rewrite (on_env_step w1 (PyInt 1) s0 g eq_refl Hs0 Hg0).
  rewrite (step_equation (env w1) (PyInt 1) s0 g eq_refl Hs0 Hg0). cbv zeta.
  change (env w1) with (env w0). rewrite Hn0, Hl0, Ht0. fold s1. cbn [fst].
  assert (Hs1 : s1 = Z.min (s0 + 1) (n - 1)) by reflexivity.
  destruct (Z.eqb_spec s1 g) as [Hhit | Hmiss].
  - unfold ret. exists (0 + 10)%float, 1, (set_env (moved (env w0) s1) w1), g.
    split; [reflexivity|].
    cbn [env set_env moved state goal_state steps_taken
         set_steps_taken set_state].
    rewrite Ht0, Hhit. repeat split; try assumption; lia.
  - replace (0 + 1 >=? step_limit (env w)) with false
      by (symmetry; rewrite Z.geb_leb; apply Z.leb_gt; lia).
    destruct (wildcard_loop_reaches max_steps
                (Z.to_nat ((n - 1) * (n - 1))) todo (0 + 1)
                (0 + shaped_reward (Z.abs (s0 - g)) (Z.abs (s1 - g)))%float
                (set_env (moved (env w0) s1) w1) s0 1 1 s1 g 0)
      as (total' & m & w' & Hloop & Hm & Hst' & Hg' & Htk');
      try reflexivity;
      cbn [env set_env moved N steps_taken step_limit
           set_steps_taken set_state];
      try rewrite Hn0; try rewrite Hl0; try rewrite Ht0;
      try assumption; try lia.
    + unfold wild_inv, wild_lo, wild_hi. lia.
    + unfold wild_spent. split; [lia|]. left. apply Z.square_nonneg.
    + unfold wild_budget. rewrite wild_target_right.
      unfold wild_hi. lia.
    + exists total', (0 + 1 + m), w', g.
      split; [exact Hloop|]. split; [exact Hge1|].
      split; [lia|]. split; [exact Hst'|]. split; [exact Hg'|].
      rewrite Htk'. cbn [env set_env moved steps_taken set_steps_taken].
      rewrite Ht0. lia.
Qed.

End WildcardBudget.

(** An episode of the wildcard policy on ten cells with step limit 100,
    the size and limit [run_experiments] uses: the bound is 82 steps,
    within the limit. *)
Lemma wildcard_episode_reaches_goal_witness :
  exists total n w' g,
    run_episode 100 wildcard_policy 100
      (Scripted.process (Scripted.fresh 10 100 [1; 3]) [0])
    = (Ok (total, n), w') /\
    goal_state (Scripted.episode 10 100 [] 3 1 0) = Some g /\
    1 <= n <= (10 - 1) * (10 - 1) + 1 /\
    state (env w') = Some g /\ goal_state (env w') = Some g /\
    steps_taken (env w') = n.
Proof.
  apply (wildcard_episode_reaches_goal 100 100
           (Scripted.process (Scripted.fresh 10 100 [1; 3]) [0]) 3
           (Scripted.episode 10 100 [] 3 1 0)).
  - simpl. lia.
  - reflexivity.
  - simpl. lia.
  - simpl. lia.
Defined.

(** * The direction draw of the monotonous policy *)

Section DirectionDraw.

Context `{RS : RandomSource}.

(** The step count of an episode under the monotonous policy, in terms
    of the direction [run_episode] drew from the [random] module. *)
Lemma monotonous_run_length
    (fuel : nat) (max_steps : Z) (w : World) (s0 : Z) (e1 : GridWorld1D) :
  2 <= N (env w) ->
  reset fuel (env w) = (Ok s0, e1) ->
  2 * N (env w) - 3 <= step_limit (env w) ->
  2 * N (env w) - 3 <= max_steps ->
  exists total w' g,
    run_episode fuel monotonous_policy max_steps w
    = (Ok (total,
           sweep_length (fst (randbelow (global_random w) 2)) s0 g
                        (N (env w))),
       w') /\
    goal_state e1 = Some g /\ g <> s0 /\
    0 <= g < N (env w) /\ 0 <= s0 < N (env w).
Proof.
  intros HN Hreset Hlimit Hmax.
  pose proof (reset_cases fuel (env w) ltac:(lia)) as Hc.
  rewrite Hreset in Hc. destruct Hc as (g & r & Hne & Hs & Hg & He1).
  rewrite (run_episode_unfold fuel _ max_steps w s0 e1 Hreset).
  pose proof (randbelow_range (global_random w) 2 ltac:(lia)) as Hr.
  set (d := fst (randbelow (global_random w) 2)) in *.
  assert (Hd01 : d = 0 \/ d = 1) by lia.
  pose proof (sweep_length_bounds d s0 g (N (env w)) Hd01 Hs Hg Hne) as Hlen.
  destruct (Z.to_nat (sweep_length d s0 g (N (env w)))) as [|k] eqn:Hk; [lia|].
  destruct (monotonous_loop_reaches max_steps k (Z.to_nat max_steps) 0 s0
              0%float (episode_start w e1) d g)
    as (total & w' & Hloop & _);
    try (subst e1; simpl; first [reflexivity | lia | assumption]).
  exists total, w', g. rewrite Hloop.
  replace (0 + Z.of_nat (S k)) with (sweep_length d s0 g (N (env w))) by lia.
  subst e1. repeat split; lia.
Qed.

(** From a start away from both walls the sweep takes a different
    number of moves in the two directions. *)
Lemma sweep_length_differs (s g n : Z) :
  0 < s < n - 1 -> 0 <= g < n -> g <> s ->
  sweep_length 0 s g n <> sweep_length 1 s g n.
Proof.
  intros Hs Hg Hne. unfold sweep_length.
  change (0 =? 1) with false. change (1 =? 1) with true. cbv iota.
  destruct (Z.ltb_spec g s); destruct (Z.ltb_spec s g); lia.
Qed.

(** C4, as the code has it: the per-episode initial direction of the
    monotonous policy is drawn from the [random] module's own generator,
    not from the seeded one of the environment, and the episode depends
    on it.  Two processes with the same seeded environment (so the same
    goal and start) whose [random] module generators give different
    direction draws run episodes of different length, whenever the start
    is away from both walls (and the step limit lets the sweep finish):
    the same seed does not give the same episodes. *)
Theorem monotonous_episode_follows_direction_draw
    (fuel : nat) (max_steps : Z) (w1 w2 : World) (s0 : Z) (e1 : GridWorld1D) :
  env w1 = env w2 ->
  2 <= N (env w1) ->
  reset fuel (env w1) = (Ok s0, e1) ->
  0 < s0 < N (env w1) - 1 ->
  2 * N (env w1) - 3 <= step_limit (env w1) ->
  2 * N (env w1) - 3 <= max_steps ->
  fst (randbelow (global_random w1) 2)
  <> fst (randbelow (global_random w2) 2) ->
  exists total1 n1 total2 n2,
    fst (run_episode fuel monotonous_policy max_steps w1) = Ok (total1, n1) /\
    fst (run_episode fuel monotonous_policy max_steps w2) = Ok (total2, n2) /\
    n1 <> n2.
Proof.
  intros Henv HN Hreset Hstart Hlimit Hmax Hdraw.
  destruct (monotonous_run_length fuel max_steps w1 s0 e1
              HN Hreset Hlimit Hmax)
    as (total1 & w1' & g & Hrun1 & Hg & Hne & Hgb & _).
  rewrite Henv in HN, Hreset, Hlimit, Hmax.
  destruct (monotonous_run_length fuel max_steps w2 s0 e1
              HN Hreset Hlimit Hmax)
    as (total2 & w2' & g2 & Hrun2 & Hg2 & _).
  assert (g2 = g) by congruence. subst g2.
  rewrite Hrun1, Hrun2. rewrite <- Henv.
  eexists. eexists. eexists. eexists.
  split; [reflexivity|]. split; [reflexivity|].
  pose proof (randbelow_range (global_random w1) 2 ltac:(lia)) as Hr1.
  pose proof (randbelow_range (global_random w2) 2 ltac:(lia)) as Hr2.
  pose proof (sweep_length_differs s0 g (N (env w1)) Hstart Hgb Hne) as Hdiff.
  set (d1 := fst (randbelow (global_random w1) 2)) in *.
  set (d2 := fst (randbelow (global_random w2) 2)) in *.
  assert (Hcases : (d1 = 0 /\ d2 = 1) \/ (d1 = 1 /\ d2 = 0)) by lia.
  destruct Hcases as [[-> ->] | [-> ->]]; [exact Hdiff|].
  intros H. apply Hdiff. symmetry. exact H.
Qed.

End DirectionDraw.

(** C4 at a concrete input: ten cells, step limit 100, an environment
    generator whose next draws are goal 1 and start 3, and two processes
    whose [random] module generators draw the directions 0 and 1. *)
Lemma monotonous_episode_follows_direction_draw_witness :
  exists total1 n1 total2 n2,
    fst (run_episode 100 monotonous_policy 100
           (Scripted.process (Scripted.fresh 10 100 [1; 3]) [0]))
    = Ok (total1, n1) /\
    fst (run_episode 100 monotonous_policy 100
           (Scripted.process (Scripted.fresh 10 100 [1; 3]) [1]))
    = Ok (total2, n2) /\
    n1 <> n2.
Proof.
  apply (monotonous_episode_follows_direction_draw 100 100
           (Scripted.process (Scripted.fresh 10 100 [1; 3]) [0])
           (Scripted.process (Scripted.fresh 10 100 [1; 3]) [1])
           3 (Scripted.episode 10 100 [] 3 1 0)).
  - reflexivity.
  - simpl. lia.
  - reflexivity.
  - simpl. lia.
  - simpl. lia.
  - simpl. lia.
  - simpl. discriminate.
Defined.

(** The two episodes of that input: heading left the goal is two steps
    away, with return 9.9; heading right the agent goes to the wall and
    back, 14 steps with return 8.1. *)
Example monotonous_episodes_with_both_draws :
  fst (run_episode 100 monotonous_policy 100
         (Scripted.process (Scripted.fresh 10 100 [1; 3]) [0]))
  = Ok (9.9%float, 2) /\
  fst (run_episode 100 monotonous_policy 100
         (Scripted.process (Scripted.fresh 10 100 [1; 3]) [1]))
  = Ok (8.1%float, 14).
Proof.
  split; vm_compute; reflexivity.
Qed.

(** With the start at the wall the goal is not behind, the draw makes no
    difference: goal 1 and start 0 give one step with return 10.0 under
    either direction. *)
Example monotonous_episodes_from_the_wall :
  fst (run_episode 100 monotonous_policy 100
         (Scripted.process (Scripted.fresh 10 100 [1; 0]) [0]))
  = Ok (10%float, 1) /\
  fst (run_episode 100 monotonous_policy 100
         (Scripted.process (Scripted.fresh 10 100 [1; 0]) [1]))
  = Ok (10%float, 1).
Proof.
  split; vm_compute; reflexivity.
Qed.

(** Hence an episode of the monotonous policy is not determined by the
    seeded state alone. *)
Lemma monotonous_episode_not_seed_driven :
  ~ seed_driven (RS := Scripted.source)
      (run_episode 100 monotonous_policy 100).
Proof.
  intros H.
  destruct (H (Scripted.process (Scripted.fresh 10 100 [1; 3]) [0])
              (Scripted.process (Scripted.fresh 10 100 [1; 3]) [1]))
    as [Heq _].
  - repeat split.
  - apply (f_equal (fun r => match r with Ok (_, n) => n | _ => 0 end))
      in Heq.
    vm_compute in Heq. discriminate Heq.
Qed.
